(** * Bootstrap resampling of [notebooks/OR_Test_Statistics.ipynb]

    The notebook defines

<<
    def bootstrap_samples(rvs, estimator, bootstrap_number):
        n = len(rvs)
        return np.array([estimator(np.random.choice(rvs, size=n))
                         for _ in range(bootstrap_number)])
>>

    The function is embedded as a computation over an explicit program
    state: the state of the module-level generator [np.random] and a store
    of arrays.  Arrays are referred to by location, so that a statistic
    which writes into the array it is handed is visible in the model. *)

From Stdlib Require Import ZArith NArith QArith.
From stdpp Require Import gmap list sorting.

Local Open Scope Z_scope.
Local Open Scope nat_scope.

#[local] Set Warnings "-clear-no-such-hyp".

(** ** Exceptions *)

(** The Python exceptions that can reach the caller: the ones the library
    calls raise, and whatever the statistic raises itself. *)
Inductive exn : Type :=
  | TypeError
  | ValueError
  | IndexError
  | ZeroDivisionError
  | Exception (code : nat).

(** ** The library's generator *)

(** [np.random] is not code of the notebook.  What the notebook relies on
    is taken as an interface: [randint g high] is one draw from
    [0, high) together with the advanced generator, and
    [choice_rejects_empty] records how the installed release treats an
    empty population: older releases of [choice] raise for it outright,
    newer ones only when samples are actually requested. *)
Class RandomState (G : Type) := {
  randint : G → nat → nat * G;
  randint_lt : ∀ g high, 0 < high → (randint g high).1 < high;
  choice_rejects_empty : bool
}.

Section Bootstrap.
Context {G : Type} {RS : RandomState G}.
Context {A T : Type}.

(** *** Program state *)

Definition loc : Type := positive.

Record state : Type := State {
  rng : G;
  heap : gmap loc (list A)
}.

(** A computation reads and writes the state and either raises or
    returns.  The state reached when an exception is raised is kept:
    writes made before the [raise] stay made. *)
Definition M (X : Type) : Type := state → (exn + X) * state.

Definition ret {X} (x : X) : M X := λ σ, (inr x, σ).

Definition bind {X Y} (m : M X) (k : X → M Y) : M Y := λ σ,
  match m σ with
  | (inl e, σ') => (inl e, σ')
  | (inr x, σ') => k x σ'
  end.

Local Notation "'let!' x ':=' m 'in' k" := (bind m (λ x, k))
  (at level 10, x name, m at level 100, k at level 200).

(** *** The value part of [np.random.choice] *)

(** [randint(0, high, size)]: [size] successive draws. *)
Fixpoint randints (g : G) (high size : nat) : list nat * G :=
  match size with
  | 0 => ([], g)
  | S size' =>
      let '(i, g1) := randint g high in
      let '(idx, g2) := randints g1 high size' in
      (i :: idx, g2)
  end.

(** [a[idx]] for an index array: every index is looked up, an index out
    of range is an [IndexError]. *)
Definition take (a : list A) (idx : list nat) : option (list A) :=
  mapM (λ i, a !! i) idx.

(** [choice(a, size)] with the defaults [replace=True], [p=None]. *)
Definition choice (g : G) (a : list A) (size : nat) : (exn + list A) * G :=
  let pop_size := length a in
  if bool_decide (pop_size = 0)
     && (choice_rejects_empty || negb (bool_decide (size = 0)))
  then (inl ValueError, g)
  else
    let '(idx, g') := randints g pop_size size in
    match take a idx with
    | Some r => (inr r, g')
    | None => (inl IndexError, g')
    end.

(** *** Operations on the store *)

(** [len(rvs)]. A reference that names no array stands for an argument
    without a length. *)
Definition len (rvs : loc) : M nat := λ σ,
  match heap σ !! rvs with
  | Some xs => (inr (length xs), σ)
  | None => (inl TypeError, σ)
  end.

(** [np.random.choice(a, size=n)]: the values are drawn with the global
    generator and returned in a newly allocated array. *)
Definition random_choice (a : loc) (size : nat) : M loc := λ σ,
  match heap σ !! a with
  | None => (inl TypeError, σ)
  | Some xs =>
      match choice (rng σ) xs size with
      | (inl e, g') => (inl e, State g' (heap σ))
      | (inr r, g') =>
          let l := fresh (dom (heap σ)) in
          (inr l, State g' (<[l := r]> (heap σ)))
      end
  end.

(** A statistic is a callable that receives an array.  It may raise, and
    it may write into the array it was given: from the contents it
    finds it yields the contents it leaves and its outcome. *)
Definition statistic : Type := list A → list A * (exn + T).

Definition call (estimator : statistic) (x : loc) : M T := λ σ,
  match heap σ !! x with
  | None => (inl TypeError, σ)
  | Some v =>
      let '(v', r) := estimator v in
      (r, State (rng σ) (<[x := v']> (heap σ)))
  end.

(** [range(stop)] *)
Definition range (stop : Z) : list Z := seqZ 0 stop.

(** [[body for i in it]] *)
Fixpoint comprehension {I X} (body : I → M X) (it : list I) : M (list X) :=
  match it with
  | [] => ret []
  | i :: it' =>
      let! x := body i in
      let! xs := comprehension body it' in
      ret (x :: xs)
  end.

(** *** The function *)

(** One element of the comprehension. *)
Definition trial (rvs : loc) (n : nat) (estimator : statistic) : M T :=
  let! x := random_choice rvs n in
  call estimator x.

(** [np.array] of the list of values the comprehension builds is that
    list as an array; the result is given as the list. *)
Definition bootstrap_samples
    (rvs : loc) (estimator : statistic) (bootstrap_number : Z) : M (list T) :=
  let! n := len rvs in
  comprehension (λ _, trial rvs n estimator) (range bootstrap_number).

(** *** The run of draws behind a call *)

(** The trials of one call draw from the generator one after the other.
    The following functions name what is drawn, as a function of the
    generator the call starts with. *)

(** The draw of one trial: [size] is the length of the sample. *)
Definition draw (g : G) (xs : list A) : (exn + list A) * G :=
  choice g xs (length xs).

(** The generator before trial [k] (trials are counted from 0). *)
Fixpoint gen_at (k : nat) (g : G) (xs : list A) : G :=
  match k with
  | 0 => g
  | S k' => gen_at k' (draw g xs).2 xs
  end.

(** The index array drawn in trial [k]. *)
Definition indices_at (k : nat) (g : G) (xs : list A) : list nat :=
  (randints (gen_at k g xs) (length xs) (length xs)).1.

(** The resample drawn in trial [k]. *)
Definition resample_at (k : nat) (g : G) (xs : list A) : exn + list A :=
  (draw (gen_at k g xs) xs).1.

(** The outcome of the statistic in trial [k]: the exception of the draw
    if the draw raises, else what the statistic does on the resample. *)
Definition outcome_at (estimator : statistic) (k : nat) (g : G) (xs : list A)
    : exn + T :=
  match resample_at k g xs with
  | inl e => inl e
  | inr ys => (estimator ys).2
  end.

(** The values of [m] trials run on the sample [xs] from generator [g],
    without the store: the first exception, or all the values, and the
    generator that is left. *)
Fixpoint replicates (estimator : statistic) (xs : list A) (m : nat) (g : G)
    : (exn + list T) * G :=
  match m with
  | 0 => (inr [], g)
  | S m' =>
      match draw g xs with
      | (inl e, g') => (inl e, g')
      | (inr ys, g') =>
          match (estimator ys).2 with
          | inl e => (inl e, g')
          | inr t =>
              match replicates estimator xs m' g' with
              | (inl e, g'') => (inl e, g'')
              | (inr ts, g'') => (inr (t :: ts), g'')
              end
          end
      end
  end.

End Bootstrap.

Arguments state : clear implicits.
Arguments M : clear implicits.
Arguments statistic : clear implicits.

(** ** Concrete instances *)

(** A small linear congruential generator, and a few statistics, on which
    the model is run on concrete inputs. *)
Module Examples.

Definition lcg_next (s : N) : N :=
  ((1103515245 * s + 12345) mod 2147483648)%N.

Definition lcg_randint (s : N) (high : nat) : nat * N :=
  let s' := lcg_next s in
  (N.to_nat ((s' / 65536) mod N.of_nat high)%N, s').

(** The generator with a library whose [choice] rejects an empty
    population outright, and with one that does not. *)
#[refine] Definition strict : RandomState N :=
  {| randint := lcg_randint; choice_rejects_empty := true |}.
Proof.
  intros g high Hh. unfold lcg_randint. simpl.
  pose proof (N.mod_upper_bound (lcg_next g / 65536) (N.of_nat high)).
  lia.
Defined.

#[refine] Definition lenient : RandomState N :=
  {| randint := lcg_randint; choice_rejects_empty := false |}.
Proof.
  intros g high Hh. unfold lcg_randint. simpl.
  pose proof (N.mod_upper_bound (lcg_next g / 65536) (N.of_nat high)).
  lia.
Defined.

(** [np.sum] on integers. *)
Definition total (x : list Z) : list Z * (exn + Z) :=
  (x, inr (foldr Z.add 0%Z x)).

(** [np.mean] on integers, as a reduced fraction; the empty array is
    given the value 0 here. *)
Definition mean (x : list Z) : list Z * (exn + Q) :=
  (x, inr (match x with
           | [] => 0%Q
           | _ => Qred (foldr Z.add 0%Z x # Pos.of_nat (length x))
           end)).

(** [lambda x: 1 / x.tolist().count(0)]: an array has no [count] of its
    own, the zeros are counted in the list of its values. *)
Definition inv_count_zero (x : list Z) : list Z * (exn + Q) :=
  match length (filter (λ v, v = 0%Z) x) with
  | 0 => (x, inl ZeroDivisionError)
  | S c => (x, inr (1 # Pos.of_succ_nat c)%Q)
  end.

(** A statistic that raises the class of exception the library raises:
<<
    def total_nonneg(x):
        if (x < 0).any():
            raise ValueError
        return x.sum()
>> *)
Definition total_nonneg (x : list Z) : list Z * (exn + Z) :=
  if bool_decide (Exists (λ v, (v < 0)%Z) x) then (x, inl ValueError)
  else (x, inr (foldr Z.add 0%Z x)).

(** A statistic that writes into its argument: [x.fill(0)] after taking
    the sum. *)
Definition total_and_clear (x : list Z) : list Z * (exn + Z) :=
  (replicate (length x) 0%Z, inr (foldr Z.add 0%Z x)).

(** A store holding the array [xs] at location 1, seeded with [seed]. *)
Definition store (seed : N) (xs : list Z) : state N Z :=
  State seed {[ 1%positive := xs ]}.

End Examples.

(** ** The code around [bootstrap_samples] *)

(** *** The call in the notebook *)

(** The notebook calls the function as
<<
    samples = bootstrap_samples(
        rvs,
        estimator=lambda x: np.mean(x) - rvs.mean(),
        bootstrap_number=bootstrap_number
    )
>>
    [np.mean] and the subtraction of floats are the library's; they are
    taken as they come.  [np.mean] returns for every array: it does not
    raise. *)
Section Caller.
Context {G : Type} {RS : RandomState G}.
Context {A T : Type}.
Variable np_mean : list A → T.
Variable subtract : T → T → T.

(** [lambda x: np.mean(x)] *)
Definition plain_mean : statistic A T := λ x, (x, inr (np_mean x)).

(** [lambda x: np.mean(x) - rvs.mean()], where the array [rvs] holds
    [sample].  The lambda leaves its argument as it is. *)
Definition centred_mean (sample : list A) : statistic A T := λ x,
  (x, inr (subtract (np_mean x) (np_mean sample))).

(** The call.  The lambda reads the global [rvs] each time it is called;
    no trial writes into that array ([trial_frame] below), so it reads
    what the array holds when the call starts. *)
Definition bootstrap_centred (rvs : loc) (bootstrap_number : Z)
    : M G A (list T) := λ σ,
  match heap σ !! rvs with
  | None => (inl TypeError, σ)
  | Some sample =>
      bootstrap_samples rvs (centred_mean sample) bootstrap_number σ
  end.

End Caller.

(** A statistic followed by a function of its value:
    [lambda x: f(estimator(x))]. *)
Definition post {A T T'} (f : T → T') (estimator : statistic A T)
    : statistic A T' := λ x,
  let '(v, r) := estimator x in (v, sum_map id f r).

(** *** The bin edges of [plot_hist_dist_discrete] *)

(** The function computes the edges of its histogram as
<<
    uniques = np.unique(rvs)
    mids = (uniques[1:] + uniques[:-1]) / 2.
    bins = np.hstack([[uniques[0]-.5], mids, [uniques[-1] + .5]])
>>
    The sample of a discrete distribution is an array of 64-bit integers.
    Their sum wraps around; the division by [2.] and the shifts by [.5]
    are done in double precision, which is exact on the halves of
    integers up to 2^52 in size and rounds beyond.  The rounding is not
    followed here: the results are given as exact fractions, and the
    theorems that depend on the arithmetic take samples whose values are
    at most 2^51 in size. *)

Definition wrap64 (z : Z) : Z := ((z + 2 ^ 63) mod 2 ^ 64 - 2 ^ 63)%Z.

(** Keep every element that differs from the one before it. *)
Fixpoint keep_changes (prev : Z) (l : list Z) : list Z :=
  match l with
  | [] => []
  | b :: l' =>
      if decide (b = prev) then keep_changes prev l'
      else b :: keep_changes b l'
  end.

(** [np.unique]: the array is sorted, and of each run of equal elements
    the first is kept. *)
Definition np_unique (rvs : list Z) : list Z :=
  match merge_sort Z.le rvs with
  | [] => []
  | a :: l => a :: keep_changes a l
  end.

Definition discrete_bins (rvs : list Z) : exn + list Q :=
  let uniques := np_unique rvs in
  let mids :=
    zip_with (λ b a, (inject_Z (wrap64 (b + a)) / 2)%Q)
      (drop 1 uniques) (firstn (length uniques - 1) uniques) in
  match uniques !! 0, last uniques with
  | Some first, Some final =>
      inr ([(inject_Z first - (1 # 2))%Q] ++ mids
           ++ [(inject_Z final + (1 # 2))%Q])
  | _, _ => inl IndexError
  end.

(** *** The grid of the probability plots *)

(** The two cells of probability plots place their plots with
<<
    for k, distx in enumerate(dists):
        for j, disty in enumerate(dists):
            plt.subplot(len(dists), len(dists), 1 + len(dists)*k + j)
>>
    [subplot_calls n] is the sequence of the arguments of [plt.subplot]
    for [n] distributions. *)
Definition subplot_calls (n : nat) : list (nat * nat * nat) :=
  k ← seq 0 n; j ← seq 0 n; [(n, n, 1 + n * k + j)].

(** ** The model on concrete inputs *)

Example run_total :
  (bootstrap_samples (RS:=Examples.strict) 1%positive Examples.total 5
     (Examples.store 42 [1;2;3;4;5]%Z)).1
  = inr [15; 10; 21; 16; 18]%Z.
Proof. vm_compute. reflexivity. Qed.

Example run_resamples :
  map (λ k, resample_at (RS:=Examples.strict) k 42%N [1;2;3;4;5]%Z) [0; 1; 2]
  = [inr [2;4;5;2;2]; inr [4;3;1;1;1]; inr [3;5;5;4;4]]%Z.
Proof. vm_compute. reflexivity. Qed.

Example run_inv_count_zero :
  (bootstrap_samples (RS:=Examples.strict) 1%positive Examples.inv_count_zero 4
     (Examples.store 1 [0;1]%Z)).1
  = inl ZeroDivisionError.
Proof. vm_compute. reflexivity. Qed.

Example run_empty_strict :
  (bootstrap_samples (RS:=Examples.strict) 1%positive Examples.total 2
     (Examples.store 42 [])).1
  = inl ValueError.
Proof. vm_compute. reflexivity. Qed.

Example run_empty_lenient :
  (bootstrap_samples (RS:=Examples.lenient) 1%positive Examples.total 2
     (Examples.store 42 [])).1
  = inr [0; 0]%Z.
Proof. vm_compute. reflexivity. Qed.

Example run_total_and_clear :
  let r := bootstrap_samples (RS:=Examples.strict) 1%positive
             Examples.total_and_clear 3 (Examples.store 42 [1;2;3]%Z) in
  r.1 = inr [8; 6; 5]%Z
  ∧ heap r.2 !! 1%positive = Some [1;2;3]%Z
  ∧ heap r.2 !! 2%positive = Some [0;0;0]%Z.
Proof. vm_compute. done. Qed.

(** ** Properties of the library part *)

Section Library.
Context {G : Type} {RS : RandomState G}.
Context {A : Type}.
Implicit Types (g : G) (xs ys : list A) (idx : list nat).

Lemma randints_length g high size :
  length (randints g high size).1 = size.
Proof.
  revert g. induction size as [|size IH]; intros g; simpl; [done|].
  destruct (randint g high) as [i g1].
  specialize (IH g1). destruct (randints g1 high size) as [idx g2].
  simpl in *. by rewrite IH.
Qed.

Lemma randints_bound g high size :
  0 < high → Forall (λ i, i < high) (randints g high size).1.
Proof.
  intros Hh. revert g. induction size as [|size IH]; intros g; simpl.
  { constructor. }
  pose proof (randint_lt g high Hh) as Hi.
  destruct (randint g high) as [i g1].
  specialize (IH g1). destruct (randints g1 high size) as [idx g2].
  simpl in *. by constructor.
Qed.

Lemma take_in_range xs idx :
  Forall (λ i, i < length xs) idx →
  ∃ ys, take xs idx = Some ys ∧ Forall2 (λ i y, xs !! i = Some y) idx ys.
Proof.
  unfold take. induction 1 as [|i idx Hi _ (ys & Hys & HF)].
  { exists []. split; [done|constructor]. }
  destruct (lookup_lt_is_Some_2 xs i Hi) as [y Hy].
  exists (y :: ys). split; [|by constructor].
  simpl. rewrite Hy. simpl. by rewrite Hys.
Qed.

(** On a sample that is not empty a draw never raises: it returns as
    many values as the sample has, each the sample's value at an index
    drawn from the whole index range. *)
Lemma draw_nonempty g xs :
  xs ≠ [] →
  ∃ ys, draw g xs = (inr ys, (randints g (length xs) (length xs)).2)
        ∧ Forall2 (λ i y, i < length xs ∧ xs !! i = Some y)
            (randints g (length xs) (length xs)).1 ys.
Proof.
  intros Hne.
  assert (0 < length xs) as Hlen by (destruct xs; [done|simpl; lia]).
  unfold draw, choice.
  rewrite bool_decide_eq_false_2 by lia. simpl.
  pose proof (randints_bound g (length xs) (length xs) Hlen) as Hb.
  destruct (randints g (length xs) (length xs)) as [idx g'] eqn:Hr.
  simpl in *.
  destruct (take_in_range xs idx Hb) as (ys & Hys & HF).
  exists ys. rewrite Hys. split; [done|].
  clear Hys Hr. induction HF as [|i y idx ys Hy HF IH]; [constructor|].
  inversion Hb; subst. constructor; [done|]. by apply IH.
Qed.

(** On the empty sample a draw consumes nothing; whether it raises is
    the library's choice. *)
Lemma draw_empty g :
  draw g (@nil A) =
    (if choice_rejects_empty then inl ValueError else inr [], g).
Proof.
  unfold draw, choice. simpl.
  destruct choice_rejects_empty; reflexivity.
Qed.

End Library.

(** ** Properties of the store operations *)

Section Store.
Context {G : Type} {RS : RandomState G}.
Context {A T : Type}.
Implicit Types (g : G) (xs ys : list A) (σ : state G A) (l rvs : loc).
Implicit Types (estimator : statistic A T).

Lemma comprehension_cons {I X} (body : I → M G A X) i it σ :
  comprehension body (i :: it) σ =
    match body i σ with
    | (inl e, σ1) => (inl e, σ1)
    | (inr x, σ1) =>
        match comprehension body it σ1 with
        | (inl e, σ2) => (inl e, σ2)
        | (inr xs, σ2) => (inr (x :: xs), σ2)
        end
    end.
Proof. reflexivity. Qed.

(** A trial on an allocated sample: the draw, then the statistic on a
    new array, which keeps what the statistic leaves in it. *)
Lemma trial_run rvs xs estimator σ :
  heap σ !! rvs = Some xs →
  trial rvs (length xs) estimator σ =
    match draw (rng σ) xs with
    | (inl e, g') => (inl e, State g' (heap σ))
    | (inr ys, g') =>
        ((estimator ys).2,
         State g' (<[fresh (dom (heap σ)) := (estimator ys).1]> (heap σ)))
    end.
Proof.
  intros Hrvs. unfold trial, bind, random_choice, call, draw.
  rewrite Hrvs.
  destruct (choice (rng σ) xs (length xs)) as [[e|ys] g']; [done|].
  simpl. rewrite lookup_insert_eq.
  destruct (estimator ys) as [v' r]. simpl.
  by rewrite insert_insert_eq.
Qed.

(** A trial leaves every array that exists when it starts as it is. *)
Lemma trial_frame rvs n estimator σ l :
  l ∈ dom (heap σ) →
  heap (trial rvs n estimator σ).2 !! l = heap σ !! l.
Proof.
  intros Hl. unfold trial, bind, random_choice, call.
  destruct (heap σ !! rvs) as [xs|]; [|done].
  destruct (choice (rng σ) xs n) as [[e|ys] g']; [done|].
  simpl. rewrite lookup_insert_eq.
  destruct (estimator ys) as [v' r]. simpl.
  assert (fresh (dom (heap σ)) ≠ l) as Hne.
  { intros <-. by apply (is_fresh (dom (heap σ))). }
  by rewrite !lookup_insert_ne.
Qed.

Lemma trial_dom rvs n estimator σ l :
  l ∈ dom (heap σ) → l ∈ dom (heap (trial rvs n estimator σ).2).
Proof.
  intros Hl. apply elem_of_dom.
  rewrite (trial_frame rvs n estimator σ l Hl). by apply elem_of_dom.
Qed.

Lemma comprehension_frame {I} rvs n estimator (it : list I) σ l :
  l ∈ dom (heap σ) →
  heap (comprehension (λ _, trial rvs n estimator) it σ).2 !! l
  = heap σ !! l.
Proof.
  revert σ. induction it as [|i it IH]; intros σ Hl; [done|].
  rewrite comprehension_cons.
  pose proof (trial_frame rvs n estimator σ l Hl) as Hf.
  pose proof (trial_dom rvs n estimator σ l Hl) as Hd.
  destruct (trial rvs n estimator σ) as [[e|t] σ1]; [done|].
  simpl in *.
  specialize (IH σ1 Hd).
  destruct (comprehension _ it σ1) as [[e|ts] σ2]; simpl in *; congruence.
Qed.

(** The values returned and the generator left by the comprehension are
    those of [replicates]: they depend on the store only through the
    contents of the sample. *)
Lemma comprehension_replicates {I} rvs xs estimator (it : list I) σ :
  heap σ !! rvs = Some xs →
  let r := comprehension (λ _, trial rvs (length xs) estimator) it σ in
  (r.1, rng r.2) = replicates estimator xs (length it) (rng σ).
Proof.
  revert σ. induction it as [|i it IH]; intros σ Hrvs; [done|].
  cbn zeta. rewrite comprehension_cons. simpl length. simpl replicates.
  assert (rvs ∈ dom (heap σ)) as Hd by (apply elem_of_dom; eauto).
  pose proof (trial_frame rvs (length xs) estimator σ rvs Hd) as Hf.
  rewrite (trial_run rvs xs estimator σ Hrvs) in Hf |- *.
  destruct (draw (rng σ) xs) as [[e|ys] g']; [done|].
  simpl in Hf.
  destruct (estimator ys) as [v' [e|t]]; simpl in *; [done|].
  match goal with |- context [comprehension _ it ?s] => set (σ1 := s) end.
  specialize (IH σ1). simpl in IH.
  rewrite <- IH by (rewrite Hf; done).
  by destruct (comprehension _ it σ1) as [[e|ts] σ2].
Qed.

Lemma bootstrap_samples_replicates rvs xs estimator (B : Z) σ :
  heap σ !! rvs = Some xs →
  let r := bootstrap_samples rvs estimator B σ in
  (r.1, rng r.2) = replicates estimator xs (Z.to_nat B) (rng σ).
Proof.
  intros Hrvs. unfold bootstrap_samples, bind, len. rewrite Hrvs.
  rewrite <- (length_seqZ 0 B).
  by apply comprehension_replicates.
Qed.

Lemma bootstrap_samples_frame rvs estimator (B : Z) σ l :
  l ∈ dom (heap σ) →
  heap (bootstrap_samples rvs estimator B σ).2 !! l = heap σ !! l.
Proof.
  intros Hl. unfold bootstrap_samples, bind, len.
  destruct (heap σ !! rvs) as [xs|]; [|done].
  by apply comprehension_frame.
Qed.

End Store.

(** ** Properties of the run of draws *)

Section Draws.
Context {G : Type} {RS : RandomState G}.
Context {A T : Type}.
Implicit Types (g : G) (xs ys : list A) (k m : nat).
Implicit Types (estimator : statistic A T).

Lemma resample_at_S k g xs :
  resample_at (S k) g xs = resample_at k (draw g xs).2 xs.
Proof. reflexivity. Qed.

Lemma outcome_at_S estimator k g xs :
  outcome_at estimator (S k) g xs = outcome_at estimator k (draw g xs).2 xs.
Proof. reflexivity. Qed.

(** Every resample of a sample that is not empty is drawn without an
    exception, has the length of the sample and holds, position by
    position, the sample's value at the index drawn for it. *)
Lemma resample_at_nonempty k g xs :
  xs ≠ [] →
  ∃ ys, resample_at k g xs = inr ys
        ∧ Forall2 (λ i y, i < length xs ∧ xs !! i = Some y)
            (indices_at k g xs) ys.
Proof.
  intros Hne. unfold resample_at, indices_at.
  destruct (draw_nonempty (gen_at k g xs) xs Hne) as (ys & Hd & HF).
  exists ys. by rewrite Hd.
Qed.

Lemma indexed_length xs (idx : list nat) ys :
  Forall2 (λ i y, i < length xs ∧ xs !! i = Some y) idx ys →
  length ys = length idx.
Proof. intros HF. symmetry. by eapply Forall2_length. Qed.

Lemma indexed_member xs (idx : list nat) ys :
  Forall2 (λ i y, i < length xs ∧ xs !! i = Some y) idx ys →
  Forall (λ y, y ∈ xs) ys.
Proof.
  induction 1 as [|i y idx ys [_ Hy] _ IH]; constructor; [|done].
  by eapply list_elem_of_lookup_2.
Qed.

Lemma resample_at_length k g xs ys :
  xs ≠ [] → resample_at k g xs = inr ys → length ys = length xs.
Proof.
  intros Hne Hr.
  destruct (resample_at_nonempty k g xs Hne) as (ys' & Hr' & HF).
  assert (ys' = ys) as -> by congruence.
  rewrite (indexed_length _ _ _ HF). unfold indices_at.
  apply randints_length.
Qed.

Lemma resample_at_member k g xs ys :
  xs ≠ [] → resample_at k g xs = inr ys → Forall (λ y, y ∈ xs) ys.
Proof.
  intros Hne Hr.
  destruct (resample_at_nonempty k g xs Hne) as (ys' & Hr' & HF).
  assert (ys' = ys) as -> by congruence.
  by eapply indexed_member.
Qed.

(** Whether a draw raises does not depend on the generator. *)
Lemma resample_at_inr_all k g xs ys j :
  resample_at k g xs = inr ys → ∃ ys', resample_at j g xs = inr ys'.
Proof.
  destruct xs as [|x xs].
  - unfold resample_at. rewrite !draw_empty. simpl.
    destruct choice_rejects_empty; [done|eauto].
  - intros _.
    destruct (resample_at_nonempty j g (x :: xs)) as (ys' & Hr & _);
      [done|eauto].
Qed.

(** [replicates] returns values exactly when every trial does, and
    then returns the values of the trials in the order of the trials. *)
Lemma replicates_inr estimator xs m g ts :
  (replicates estimator xs m g).1 = inr ts
  ↔ Forall2 (λ k t, outcome_at estimator k g xs = inr t) (seq 0 m) ts.
Proof.
  revert g ts. induction m as [|m IH]; intros g ts.
  { simpl. split.
    - intros [= <-]. constructor.
    - intros HF. by inversion HF. }
  rewrite <- cons_seq, <- fmap_S_seq. simpl replicates.
  split.
  - intros Hrep.
    destruct (draw g xs) as [[e|ys] g'] eqn:Hd; [done|].
    destruct (estimator ys).2 as [e|t] eqn:He; [done|].
    destruct (replicates estimator xs m g') as [[e|ts'] g''] eqn:Hr; [done|].
    simpl in Hrep. injection Hrep as <-.
    constructor.
    + unfold outcome_at, resample_at. simpl. by rewrite Hd.
    + apply Forall2_fmap_l.
      assert ((replicates estimator xs m g').1 = inr ts') as Hts
        by (by rewrite Hr).
      apply IH in Hts. eapply Forall2_impl; [exact Hts|].
      intros k t0 Hk. simpl. by rewrite outcome_at_S, Hd.
  - intros HF. apply Forall2_cons_inv_l in HF as (t & ts' & Ht & HF & ->).
    unfold outcome_at, resample_at in Ht. simpl in Ht.
    destruct (draw g xs) as [[e|ys] g'] eqn:Hd; simpl in Ht; [done|].
    rewrite Ht.
    apply Forall2_fmap_l in HF.
    assert ((replicates estimator xs m g').1 = inr ts') as Hr.
    { apply IH. eapply Forall2_impl; [exact HF|].
      intros k t0. simpl. by rewrite outcome_at_S, Hd. }
    destruct (replicates estimator xs m g') as [[e|ts0] g''];
      simpl in *; congruence.
Qed.

Lemma replicates_lookup estimator xs m g ts :
  (replicates estimator xs m g).1 = inr ts
  ↔ length ts = m
    ∧ ∀ k, k < m → ∃ t, outcome_at estimator k g xs = inr t ∧ ts !! k = Some t.
Proof.
  rewrite replicates_inr, Forall2_same_length_lookup, length_seq.
  split.
  - intros [Hlen H]. split; [done|]. intros k Hk.
    destruct (lookup_lt_is_Some_2 ts k) as [t Ht]; [lia|].
    exists t. split; [|done].
    apply (H k k t); [|done]. apply lookup_seq. lia.
  - intros [Hlen H]. split; [done|]. intros i k t Hi Ht.
    apply lookup_seq in Hi as [-> Hi]. simpl.
    destruct (H i Hi) as (t' & Ho & Ht'). congruence.
Qed.

(** The exception of the first trial that raises is the exception of
    [replicates]. *)
Lemma replicates_inl estimator xs m g k e :
  k < m →
  (∀ j, j < k → ∃ t, outcome_at estimator j g xs = inr t) →
  outcome_at estimator k g xs = inl e →
  (replicates estimator xs m g).1 = inl e.
Proof.
  revert g k. induction m as [|m IH]; intros g k Hk Hbefore Hfail; [lia|].
  simpl replicates.
  destruct k as [|k].
  - unfold outcome_at, resample_at in Hfail. simpl in Hfail.
    destruct (draw g xs) as [[e'|ys] g']; simpl in *; [congruence|].
    by rewrite Hfail.
  - destruct (Hbefore 0) as (t & Ht); [lia|].
    unfold outcome_at, resample_at in Ht. simpl in Ht.
    destruct (draw g xs) as [[e'|ys] g'] eqn:Hd; simpl in *; [done|].
    rewrite Ht.
    assert ((replicates estimator xs m g').1 = inl e) as Hr.
    { apply (IH g' k); [lia| |].
      - intros j Hj. destruct (Hbefore (S j)) as (t' & Ht'); [lia|].
        exists t'. by rewrite outcome_at_S, Hd in Ht'.
      - by rewrite outcome_at_S, Hd in Hfail. }
    destruct (replicates estimator xs m g') as [[e0|ts] g''];
      simpl in *; congruence.
Qed.

(** Either the first [m] trials all return, or one of them is the first
    to raise. *)
Lemma first_failure estimator xs m g :
  (∀ k, k < m → ∃ t, outcome_at estimator k g xs = inr t)
  ∨ (∃ k e, k < m ∧ outcome_at estimator k g xs = inl e
            ∧ ∀ j, j < k → ∃ t, outcome_at estimator j g xs = inr t).
Proof.
  induction m as [|m [IH|(k & e & Hk & Hfail & Hbefore)]].
  - left. intros k Hk. lia.
  - destruct (outcome_at estimator m g xs) as [e|t] eqn:Hm.
    + right. exists m, e. split_and!; [lia|done|].
      intros j Hj. by apply IH.
    + left. intros k Hk.
      destruct (decide (k = m)) as [->|]; [eauto|]. apply IH. lia.
  - right. exists k, e. split_and!; [lia|done|done].
Qed.

End Draws.

(** ** The call as a whole *)

Section Call.
Context {G : Type} {RS : RandomState G}.
Context {A T : Type}.
Implicit Types (g : G) (xs ys : list A) (σ : state G A) (l rvs : loc).
Implicit Types (estimator : statistic A T) (B : Z).

Lemma bootstrap_samples_values rvs xs estimator B σ :
  heap σ !! rvs = Some xs →
  (bootstrap_samples rvs estimator B σ).1
  = (replicates estimator xs (Z.to_nat B) (rng σ)).1.
Proof.
  intros Hrvs.
  pose proof (bootstrap_samples_replicates rvs xs estimator B σ Hrvs) as H.
  simpl in H. by rewrite <- H.
Qed.

Lemma outcome_at_resample estimator k g xs ys :
  resample_at k g xs = inr ys →
  outcome_at estimator k g xs = (estimator ys).2.
Proof. intros Hr. unfold outcome_at. by rewrite Hr. Qed.

(** If every trial returns, so does [replicates]. *)
Lemma replicates_total estimator xs m g :
  (∀ k, k < m → ∃ t, outcome_at estimator k g xs = inr t) →
  ∃ ts, (replicates estimator xs m g).1 = inr ts.
Proof.
  intros Hall.
  destruct (replicates estimator xs m g).1 as [e|ts] eqn:Hrep; [|eauto].
  exfalso.
  assert (∀ m', m' ≤ m →
    ∃ ts', Forall2 (λ k t, outcome_at estimator k g xs = inr t)
             (seq 0 m') ts') as Hbuild.
  { intros m' Hm'. induction m' as [|m' IH].
    - exists []. constructor.
    - destruct IH as [ts' HF]; [lia|].
      destruct (Hall m') as [t Ht]; [lia|].
      exists (ts' ++ [t]). rewrite seq_S. apply Forall2_app; [done|].
      by repeat constructor. }
  destruct (Hbuild m (le_n m)) as [ts HF].
  apply replicates_inr in HF. congruence.
Qed.

(** With no iteration the comprehension is the empty list. *)
Lemma bootstrap_samples_no_trial rvs xs estimator B σ :
  heap σ !! rvs = Some xs → (B ≤ 0)%Z →
  bootstrap_samples rvs estimator B σ = (inr [], σ).
Proof.
  intros Hrvs HB. unfold bootstrap_samples, bind, len, range.
  rewrite Hrvs. by rewrite seqZ_nil.
Qed.

(** The comprehension allocates one array for every resample drawn,
    and nothing else; the array of a trial is new when the trial
    allocates it, and keeps to the end what the statistic of that trial
    left in it. *)
Lemma comprehension_alloc {I} rvs xs estimator (it : list I) σ :
  heap σ !! rvs = Some xs →
  let r := comprehension (λ _, trial rvs (length xs) estimator) it σ in
  ∃ ls : list loc,
    length ls ≤ length it
    ∧ (∀ ts, r.1 = inr ts → length ls = length it)
    ∧ NoDup ls
    ∧ (∀ l, l ∈ ls → l ∉ dom (heap σ))
    ∧ dom (heap r.2) = dom (heap σ) ∪ list_to_set ls
    ∧ (∀ k l, ls !! k = Some l →
         ∃ ys, resample_at k (rng σ) xs = inr ys
               ∧ heap r.2 !! l = Some (estimator ys).1).
Proof.
  revert σ. induction it as [|i it IH]; intros σ Hrvs.
  { exists []. simpl. split_and!; try done.
    - constructor.
    - intros l Hl. by apply elem_of_nil in Hl.
    - set_solver. }
  cbn zeta. rewrite comprehension_cons.
  rewrite (trial_run rvs xs estimator σ Hrvs).
  destruct (draw (rng σ) xs) as [[e|ys] g'] eqn:Hd.
  { exists []. simpl. split_and!; try done.
    - lia.
    - constructor.
    - intros l Hl. by apply elem_of_nil in Hl.
    - set_solver. }
  set (l0 := fresh (dom (heap σ))).
  assert (l0 ∉ dom (heap σ)) as Hl0 by apply is_fresh.
  set (σ1 := State g' (<[l0 := (estimator ys).1]> (heap σ))).
  assert (heap σ1 !! rvs = Some xs) as Hrvs1.
  { simpl. rewrite lookup_insert_ne; [done|].
    intros ->. apply Hl0, elem_of_dom. eauto. }
  assert (dom (heap σ1) = dom (heap σ) ∪ {[l0]}) as Hdom1.
  { simpl. rewrite dom_insert_L. set_solver. }
  destruct (estimator ys).2 as [e|t] eqn:He.
  { exists [l0]. simpl. split_and!; try done.
    - lia.
    - apply NoDup_singleton.
    - intros l Hl. apply list_elem_of_singleton in Hl as ->. done.
    - rewrite dom_insert_L. set_solver.
    - intros [|k] l Hk; [|done]. injection Hk as <-.
      exists ys. unfold resample_at. simpl gen_at. rewrite Hd.
      split; [done|]. apply lookup_insert_eq. }
  destruct (IH σ1 Hrvs1) as (ls & Hlen & Hfull & Hnd & Hnew & Hdom & Hat).
  cbn zeta in *.
  assert (heap (comprehension (λ _ : I, trial rvs (length xs) estimator)
                  it σ1).2 !! l0 = Some (estimator ys).1) as Hkeep.
  { rewrite comprehension_frame; [apply lookup_insert_eq|].
    rewrite Hdom1. set_solver. }
  destruct (comprehension _ it σ1) as [r σ2] eqn:Hrun. simpl in *.
  assert ((match r with
           | inl e => (inl e, σ2)
           | inr ts => (inr (t :: ts), σ2)
           end).2 = σ2) as -> by (by destruct r).
  exists (l0 :: ls). simpl. split_and!.
  - lia.
  - intros ts Hts. destruct r as [e|ts']; [done|].
    by rewrite (Hfull ts').
  - constructor; [|done]. intros Hin. apply (Hnew _ Hin).
    rewrite dom_insert_L. set_solver.
  - intros l Hl. apply elem_of_cons in Hl as [->|Hl]; [done|].
    intros Hin. apply (Hnew _ Hl). rewrite dom_insert_L. set_solver.
  - rewrite Hdom, dom_insert_L. set_solver.
  - intros [|k] l Hk.
    + injection Hk as <-. exists ys.
      unfold resample_at. simpl gen_at. by rewrite Hd.
    + destruct (Hat k l Hk) as (ys' & Hys' & Hl).
      exists ys'. by rewrite resample_at_S, Hd.
Qed.

(** A trial looks at the statistic only on the resample it draws. *)
Lemma trial_ext rvs xs estimator estimator' σ :
  heap σ !! rvs = Some xs → xs ≠ [] →
  (∀ ys, length ys = length xs → Forall (λ y, y ∈ xs) ys →
         estimator' ys = estimator ys) →
  trial rvs (length xs) estimator' σ = trial rvs (length xs) estimator σ.
Proof.
  intros Hrvs Hne Hext. rewrite !(trial_run rvs xs) by done.
  destruct (draw_nonempty (rng σ) xs Hne) as (ys & Hd & HF).
  rewrite Hd. rewrite Hext; [done| |by eapply indexed_member].
  rewrite (indexed_length _ _ _ HF). apply randints_length.
Qed.

Lemma comprehension_ext {I} rvs xs estimator estimator' (it : list I) σ :
  heap σ !! rvs = Some xs → xs ≠ [] →
  (∀ ys, length ys = length xs → Forall (λ y, y ∈ xs) ys →
         estimator' ys = estimator ys) →
  comprehension (λ _, trial rvs (length xs) estimator') it σ
  = comprehension (λ _, trial rvs (length xs) estimator) it σ.
Proof.
  intros Hrvs Hne Hext. revert σ Hrvs.
  induction it as [|i it IH]; intros σ Hrvs; [done|].
  rewrite !comprehension_cons.
  rewrite (trial_ext rvs xs estimator estimator' σ) by done.
  assert (rvs ∈ dom (heap σ)) as Hd by (apply elem_of_dom; eauto).
  pose proof (trial_frame rvs (length xs) estimator σ rvs Hd) as Hf.
  destruct (trial rvs (length xs) estimator σ) as [[e|t] σ1]; [done|].
  simpl in Hf. rewrite IH; [done|]. by rewrite Hf.
Qed.

(** All resamples of a constant sample are that sample. *)
Lemma resample_at_constant k g xs (c : A) :
  xs ≠ [] → Forall (λ x, x = c) xs →
  resample_at k g xs = inr (replicate (length xs) c).
Proof.
  intros Hne Hc.
  destruct (resample_at_nonempty k g xs Hne) as (ys & Hr & HF).
  rewrite Hr. f_equal. symmetry. apply replicate_as_Forall. split.
  - rewrite (indexed_length _ _ _ HF). apply randints_length.
  - apply indexed_member in HF.
    rewrite Forall_forall in HF, Hc |- *.
    intros y Hy. symmetry. apply Hc, HF, Hy.
Qed.

End Call.

(** ** The claims about [bootstrap_samples] *)

Section Claims.
Context {G : Type} {RS : RandomState G}.
Context {A T : Type}.
Implicit Types (g : G) (xs ys : list A) (σ : state G A) (l rvs : loc).
Implicit Types (estimator : statistic A T) (B : Z).

(** C1. For a sample that is not empty and a positive number [B] of
    replicates, whatever [bootstrap_samples] returns has exactly [B]
    elements; and it does return when the statistic returns a value on
    every array of the sample's length made of the sample's values. *)
Theorem bootstrap_samples_length rvs xs estimator B σ :
  heap σ !! rvs = Some xs → xs ≠ [] → (0 < B)%Z →
  (∀ ts, (bootstrap_samples rvs estimator B σ).1 = inr ts →
         Z.of_nat (length ts) = B)
  ∧ ((∀ ys, length ys = length xs → Forall (λ y, y ∈ xs) ys →
            ∃ t, (estimator ys).2 = inr t) →
     ∃ ts, (bootstrap_samples rvs estimator B σ).1 = inr ts
           ∧ Z.of_nat (length ts) = B).
Proof.
  intros Hrvs Hne HB.
  rewrite (bootstrap_samples_values rvs xs) by done.
  assert (∀ ts, (replicates estimator xs (Z.to_nat B) (rng σ)).1 = inr ts →
                Z.of_nat (length ts) = B) as Hlen.
  { intros ts Hts. apply replicates_lookup in Hts as [Hlen _]. lia. }
  split; [done|].
  intros Htotal.
  destruct (replicates_total estimator xs (Z.to_nat B) (rng σ)) as [ts Hts].
  - intros k Hk.
    destruct (resample_at_nonempty k (rng σ) xs Hne) as (ys & Hr & HF).
    rewrite (outcome_at_resample _ _ _ _ _ Hr).
    apply Htotal; [by eapply resample_at_length|by eapply resample_at_member].
  - exists ts. split; [done|]. by apply Hlen.
Qed.

(** C2. For a sample of length [n] that is not empty and positive [B]:
    every one of the [B] trials draws [n] indices, each from the whole
    range [0, n), and its resample holds the sample's values at those
    indices; and the call returns [ts] exactly when [ts] has [B]
    elements and, for every [k], the statistic returns the [k]-th
    element of [ts] on the resample of trial [k]. *)
Theorem bootstrap_samples_trials rvs xs estimator B σ :
  heap σ !! rvs = Some xs → xs ≠ [] → (0 < B)%Z →
  (∀ k, k < Z.to_nat B →
     ∃ ys, resample_at k (rng σ) xs = inr ys
           ∧ length ys = length xs
           ∧ length (indices_at k (rng σ) xs) = length xs
           ∧ Forall2 (λ i y, i < length xs ∧ xs !! i = Some y)
               (indices_at k (rng σ) xs) ys)
  ∧ (∀ ts, (bootstrap_samples rvs estimator B σ).1 = inr ts
       ↔ length ts = Z.to_nat B
         ∧ ∀ k, k < Z.to_nat B →
             ∃ ys t, resample_at k (rng σ) xs = inr ys
                     ∧ (estimator ys).2 = inr t
                     ∧ ts !! k = Some t).
Proof.
  intros Hrvs Hne HB. split.
  - intros k Hk.
    destruct (resample_at_nonempty k (rng σ) xs Hne) as (ys & Hr & HF).
    exists ys. split_and!; [done| | |done].
    + by eapply resample_at_length.
    + apply randints_length.
  - intros ts. rewrite (bootstrap_samples_values rvs xs) by done.
    rewrite replicates_lookup. split.
    + intros [Hlen Hat]. split; [done|]. intros k Hk.
      destruct (Hat k Hk) as (t & Ho & Ht).
      destruct (resample_at_nonempty k (rng σ) xs Hne) as (ys & Hr & _).
      exists ys, t. by rewrite <- (outcome_at_resample estimator _ _ _ _ Hr).
    + intros [Hlen Hat]. split; [done|]. intros k Hk.
      destruct (Hat k Hk) as (ys & t & Hr & Ho & Ht).
      exists t. by rewrite (outcome_at_resample estimator _ _ _ _ Hr).
Qed.

(** C3, as the code has it. With a number of replicates that is zero or
    negative the call does not fail: [range] is empty, nothing is drawn,
    the statistic is never called, and the empty replicate set is
    returned with the state as it was. *)
Theorem bootstrap_samples_nonpositive rvs xs estimator B σ :
  heap σ !! rvs = Some xs → (B ≤ 0)%Z →
  bootstrap_samples rvs estimator B σ = (inr [], σ).
Proof. apply bootstrap_samples_no_trial. Qed.

(** C4, as the code has it. The function checks none of its arguments.
    With an empty sample and no trial it returns the empty replicate
    set.  With at least one trial the outcome is the library's: a
    [choice] that rejects an empty population raises [ValueError] in
    the first trial, before the statistic is called and with the state
    as it was; a [choice] that accepts it when no value is requested
    draws nothing, and the call returns what the statistic returns on
    the empty array, once per trial, or raises what the statistic
    raises there. *)
Theorem bootstrap_samples_empty rvs estimator B σ :
  heap σ !! rvs = Some [] →
  ((B ≤ 0)%Z → bootstrap_samples rvs estimator B σ = (inr [], σ))
  ∧ ((0 < B)%Z → choice_rejects_empty = true →
     bootstrap_samples rvs estimator B σ = (inl ValueError, σ))
  ∧ ((0 < B)%Z → choice_rejects_empty = false →
     rng (bootstrap_samples rvs estimator B σ).2 = rng σ
     ∧ (bootstrap_samples rvs estimator B σ).1
       = match (estimator []).2 with
         | inl e => inl e
         | inr t => inr (replicate (Z.to_nat B) t)
         end).
Proof.
  intros Hrvs. split_and!.
  - by apply (bootstrap_samples_no_trial rvs []).
  - intros HB Hrej. unfold bootstrap_samples, bind, len, range.
    rewrite Hrvs. simpl length.
    destruct (seqZ 0 B) as [|i it] eqn:Hit.
    { pose proof (length_seqZ 0 B) as Hlen. rewrite Hit in Hlen.
      simpl in Hlen. lia. }
    rewrite comprehension_cons.
    rewrite (trial_run rvs [] estimator σ Hrvs), draw_empty, Hrej.
    by destruct σ.
  - intros HB Hacc.
    pose proof (bootstrap_samples_replicates rvs [] estimator B σ Hrvs)
      as Hrep.
    cbn zeta in Hrep.
    assert (∀ m g, replicates estimator [] m g
                   = (match (estimator []).2 with
                      | inl e => if m is 0 then inr [] else inl e
                      | inr t => inr (replicate m t)
                      end, g)) as Hconst.
    { induction m as [|m IH]; intros g.
      - simpl. by destruct (estimator []).2.
      - simpl replicates. rewrite draw_empty, Hacc, IH.
        by destruct (estimator []).2. }
    rewrite Hconst in Hrep. injection Hrep as H1 H2.
    split; [done|]. rewrite H1.
    destruct (estimator []).2; [|done].
    destruct (Z.to_nat B) eqn:HBn; [lia|done].
Qed.

(** C5, as the code has it. If the statistic raises on the resample of
    some trial, the call raises: its exception is the very exception the
    statistic raises in the first trial in which it raises, passed on as
    it is and not wrapped or marked as a failure of the statistic, and
    no replicate set, whole or partial, is returned. *)
Theorem bootstrap_samples_propagates rvs xs estimator B σ k ys e :
  heap σ !! rvs = Some xs →
  k < Z.to_nat B →
  resample_at k (rng σ) xs = inr ys →
  (estimator ys).2 = inl e →
  ∃ k' ys' e',
    k' ≤ k
    ∧ resample_at k' (rng σ) xs = inr ys'
    ∧ (estimator ys').2 = inl e'
    ∧ (∀ j, j < k' →
         ∃ zs t, resample_at j (rng σ) xs = inr zs
                 ∧ (estimator zs).2 = inr t)
    ∧ (bootstrap_samples rvs estimator B σ).1 = inl e'.
Proof.
  intros Hrvs Hk Hr He.
  rewrite (bootstrap_samples_values rvs xs) by done.
  destruct (first_failure estimator xs (S k) (rng σ))
    as [Hall|(k' & e' & Hk' & Hfail & Hbefore)].
  { destruct (Hall k) as [t Ht]; [lia|].
    rewrite (outcome_at_resample _ _ _ _ _ Hr) in Ht. congruence. }
  destruct (resample_at_inr_all k (rng σ) xs ys k' Hr) as [ys' Hr'].
  exists k', ys', e'. split_and!.
  - lia.
  - done.
  - by rewrite <- (outcome_at_resample estimator _ _ _ _ Hr').
  - intros j Hj. destruct (Hbefore j Hj) as [t Ht].
    destruct (resample_at_inr_all k (rng σ) xs ys j Hr) as [zs Hz].
    exists zs, t. by rewrite <- (outcome_at_resample estimator _ _ _ _ Hz).
  - apply (replicates_inl estimator xs _ _ k'); [lia|done|done].
Qed.

(** C6. For a sample that is not empty and positive [B], the resample
    of every trial is drawn without an exception and each of its
    elements is an element of the sample.  The call accordingly does
    not depend on what the statistic does on any other array. *)
Theorem bootstrap_samples_members rvs xs estimator B σ :
  heap σ !! rvs = Some xs → xs ≠ [] → (0 < B)%Z →
  (∀ k, k < Z.to_nat B →
     ∃ ys, resample_at k (rng σ) xs = inr ys ∧ Forall (λ y, y ∈ xs) ys)
  ∧ (∀ estimator' : statistic A T,
       (∀ ys, length ys = length xs → Forall (λ y, y ∈ xs) ys →
              estimator' ys = estimator ys) →
       bootstrap_samples rvs estimator' B σ
       = bootstrap_samples rvs estimator B σ).
Proof.
  intros Hrvs Hne HB. split.
  - intros k Hk.
    destruct (resample_at_nonempty k (rng σ) xs Hne) as (ys & Hr & HF).
    exists ys. split; [done|]. by eapply indexed_member.
  - intros estimator' Hext. unfold bootstrap_samples, bind, len.
    rewrite Hrvs. by apply comprehension_ext.
Qed.

(** C7. For a sample that is not empty and whose values all equal [c],
    and positive [B]: every element of a returned replicate set is the
    value of the statistic on the constant array of the sample's
    length, and if the statistic has a value there the call returns
    that value [B] times. *)
Theorem bootstrap_samples_constant rvs xs (c : A) estimator B σ :
  heap σ !! rvs = Some xs → xs ≠ [] → Forall (λ x, x = c) xs → (0 < B)%Z →
  (∀ ts, (bootstrap_samples rvs estimator B σ).1 = inr ts →
         Forall (λ t, (estimator (replicate (length xs) c)).2 = inr t) ts)
  ∧ (∀ t, (estimator (replicate (length xs) c)).2 = inr t →
          (bootstrap_samples rvs estimator B σ).1
          = inr (replicate (Z.to_nat B) t)).
Proof.
  intros Hrvs Hne Hc HB.
  rewrite (bootstrap_samples_values rvs xs) by done.
  assert (∀ k, outcome_at estimator k (rng σ) xs
               = (estimator (replicate (length xs) c)).2) as Hout.
  { intros k. apply outcome_at_resample. by apply resample_at_constant. }
  split.
  - intros ts Hts. apply replicates_lookup in Hts as [Hlen Hat].
    apply Forall_lookup_2. intros k t Ht.
    destruct (Hat k) as (t' & Ho & Ht').
    { rewrite <- Hlen. by eapply lookup_lt_Some. }
    rewrite <- Hout with k. congruence.
  - intros t Ht. apply replicates_lookup. split; [apply length_replicate|].
    intros k Hk. exists t. split; [by rewrite Hout|].
    by apply lookup_replicate_2.
Qed.

(** C8. Two calls that start with the generator in the same state, on
    samples with the same contents, with the same statistic and the
    same [B], have the same outcome (the same replicate set, or the
    same exception) and leave the generator in the same state, wherever
    the samples are stored and whatever else the stores hold; and a
    call leaves every array that exists when it starts as it is, so
    that the advance of the generator is its only effect on what the
    caller can reach. *)
Theorem bootstrap_samples_deterministic rvs1 rvs2 xs estimator B
    (σ1 σ2 : state G A) :
  rng σ1 = rng σ2 →
  heap σ1 !! rvs1 = Some xs →
  heap σ2 !! rvs2 = Some xs →
  (bootstrap_samples rvs1 estimator B σ1).1
  = (bootstrap_samples rvs2 estimator B σ2).1
  ∧ rng (bootstrap_samples rvs1 estimator B σ1).2
    = rng (bootstrap_samples rvs2 estimator B σ2).2
  ∧ (∀ l, l ∈ dom (heap σ1) →
       heap (bootstrap_samples rvs1 estimator B σ1).2 !! l = heap σ1 !! l).
Proof.
  intros Hrng H1 H2.
  pose proof (bootstrap_samples_replicates rvs1 xs estimator B σ1 H1) as E1.
  pose proof (bootstrap_samples_replicates rvs2 xs estimator B σ2 H2) as E2.
  cbn zeta in E1, E2. rewrite Hrng, <- E2 in E1.
  injection E1 as Hv Hg. split_and!; [done|done|].
  intros l Hl. by apply bootstrap_samples_frame.
Qed.

(** C9. After a call, whether it returns or raises, the sample holds
    what it held before: the same values in the same order. *)
Theorem bootstrap_samples_sample_unchanged rvs xs estimator B σ :
  heap σ !! rvs = Some xs →
  heap (bootstrap_samples rvs estimator B σ).2 !! rvs = Some xs.
Proof.
  intros Hrvs. rewrite bootstrap_samples_frame; [done|].
  apply elem_of_dom. eauto.
Qed.

(** C10. The resamples of a call are held in arrays of their own: one
    location per resample drawn, all different from one another, none
    of them the sample or any other array that existed before the call.
    At the end each of them holds what the statistic of its own trial
    left in it, and every array that existed before holds what it held:
    a statistic that writes into its argument changes neither the
    sample nor the resample of another trial. *)
Theorem bootstrap_samples_fresh_resamples rvs xs estimator B σ :
  heap σ !! rvs = Some xs →
  let r := bootstrap_samples rvs estimator B σ in
  ∃ ls : list loc,
    length ls ≤ Z.to_nat B
    ∧ (∀ ts, r.1 = inr ts → length ls = Z.to_nat B)
    ∧ NoDup ls
    ∧ (∀ l, l ∈ ls → l ≠ rvs ∧ l ∉ dom (heap σ))
    ∧ dom (heap r.2) = dom (heap σ) ∪ list_to_set ls
    ∧ (∀ k l, ls !! k = Some l →
         ∃ ys, resample_at k (rng σ) xs = inr ys
               ∧ heap r.2 !! l = Some (estimator ys).1)
    ∧ (∀ l, l ∈ dom (heap σ) → heap r.2 !! l = heap σ !! l).
Proof.
  intros Hrvs r.
  assert (r = comprehension (λ _, trial rvs (length xs) estimator)
                (range B) σ) as Hr.
  { unfold r, bootstrap_samples, bind, len. by rewrite Hrvs. }
  destruct (comprehension_alloc rvs xs estimator (range B) σ Hrvs)
    as (ls & Hlen & Hfull & Hnd & Hnew & Hdom & Hat).
  cbn zeta in *. rewrite <- Hr in *.
  unfold range in Hlen, Hfull. rewrite length_seqZ in Hlen, Hfull.
  exists ls. split_and!; try done.
  - intros l Hl. split; [|by apply Hnew].
    intros ->. apply (Hnew _ Hl), elem_of_dom. eauto.
  - intros l Hl. rewrite Hr. by apply comprehension_frame.
Qed.

End Claims.

(** ** The claims on concrete inputs *)

(** The sample is stored at location 1 and the generator is the linear
    congruential one of [Examples]. *)

(** C1 on the sample 1..5 with the sum as statistic and five trials. *)
Lemma bootstrap_samples_length_witness :
  ∃ ts, (bootstrap_samples (RS:=Examples.strict) 1%positive Examples.total 5
           (Examples.store 42 [1;2;3;4;5]%Z)).1 = inr ts
        ∧ Z.of_nat (length ts) = 5%Z.
Proof.
  refine (proj2 (bootstrap_samples_length (RS:=Examples.strict)
                   1%positive [1;2;3;4;5]%Z Examples.total 5
                   (Examples.store 42 [1;2;3;4;5]%Z) _ _ _) _).
  - reflexivity.
  - discriminate.
  - lia.
  - intros ys _ _. eexists. reflexivity.
Defined.

(** C2 on the same input: the five sums are the sums of the five
    resamples, in the order in which they are drawn. *)
Lemma bootstrap_samples_trials_witness :
  (bootstrap_samples (RS:=Examples.strict) 1%positive Examples.total 5
     (Examples.store 42 [1;2;3;4;5]%Z)).1 = inr [15; 10; 21; 16; 18]%Z
  ↔ length [15; 10; 21; 16; 18]%Z = Z.to_nat 5
    ∧ ∀ k, k < Z.to_nat 5 →
        ∃ ys t, resample_at (RS:=Examples.strict) k 42%N [1;2;3;4;5]%Z = inr ys
                ∧ (Examples.total ys).2 = inr t
                ∧ [15; 10; 21; 16; 18]%Z !! k = Some t.
Proof.
  refine (proj2 (bootstrap_samples_trials (RS:=Examples.strict)
                   1%positive [1;2;3;4;5]%Z Examples.total 5
                   (Examples.store 42 [1;2;3;4;5]%Z) _ _ _) _).
  - reflexivity.
  - discriminate.
  - lia.
Defined.

(** C3, as the spec has it, fails for zero replicates: no exception. *)
Lemma bootstrap_samples_nonpositive_counterexample :
  ¬ ∃ e, (bootstrap_samples (RS:=Examples.strict) 1%positive Examples.total 0
            (Examples.store 42 [1;2;3]%Z)).1 = inl e.
Proof. intros [e He]. vm_compute in He. discriminate. Qed.

Lemma bootstrap_samples_nonpositive_witness :
  bootstrap_samples (RS:=Examples.strict) 1%positive Examples.total (-2)
    (Examples.store 42 [1;2;3]%Z)
  = (inr [], Examples.store 42 [1;2;3]%Z).
Proof.
  apply (bootstrap_samples_nonpositive (RS:=Examples.strict)
           1%positive [1;2;3]%Z).
  - reflexivity.
  - lia.
Defined.

(** C4, as the spec has it, fails for the empty sample and zero
    replicates, even with a library that rejects an empty population. *)
Lemma bootstrap_samples_empty_counterexample :
  ¬ ∃ e, (bootstrap_samples (RS:=Examples.strict) 1%positive Examples.total 0
            (Examples.store 42 [])).1 = inl e.
Proof. intros [e He]. vm_compute in He. discriminate. Qed.

Lemma bootstrap_samples_empty_witness :
  bootstrap_samples (RS:=Examples.strict) 1%positive Examples.total 2
    (Examples.store 42 [])
  = (inl ValueError, Examples.store 42 []).
Proof.
  refine (proj1 (proj2 (bootstrap_samples_empty (RS:=Examples.strict)
                          1%positive Examples.total 2
                          (Examples.store 42 []) _)) _ _).
  - reflexivity.
  - lia.
  - reflexivity.
Defined.

(** C5, as the spec has it, fails: what reaches the caller is not a
    failure of a kind of its own.  On the sample [-1; -2] the statistic
    [total_nonneg] raises [ValueError] in the first trial, and the call
    raises [ValueError]; on the empty sample, with a library that
    rejects it, the statistic is never called and the call raises
    [ValueError] as well.  No reading of the exception therefore tells
    the first, a failure of the statistic, from the second, a rejected
    argument. *)
Lemma bootstrap_samples_propagates_counterexample :
  (Examples.total_nonneg [-1; -2]%Z).2 = inl ValueError
  ∧ (bootstrap_samples (RS:=Examples.strict) 1%positive
       Examples.total_nonneg 2 (Examples.store 42 [-1; -2]%Z)).1
    = inl ValueError
  ∧ (bootstrap_samples (RS:=Examples.strict) 1%positive
       Examples.total_nonneg 2 (Examples.store 42 [])).1
    = inl ValueError
  ∧ ¬ ∃ statistic_evaluation_failure : exn → Prop,
        (∀ e, (bootstrap_samples (RS:=Examples.strict) 1%positive
                 Examples.total_nonneg 2
                 (Examples.store 42 [-1; -2]%Z)).1 = inl e →
              statistic_evaluation_failure e)
        ∧ (∀ e, (bootstrap_samples (RS:=Examples.strict) 1%positive
                   Examples.total_nonneg 2 (Examples.store 42 [])).1 = inl e →
                ¬ statistic_evaluation_failure e).
Proof.
  assert ((bootstrap_samples (RS:=Examples.strict) 1%positive
             Examples.total_nonneg 2 (Examples.store 42 [-1; -2]%Z)).1
          = inl ValueError) as Hstat by (vm_compute; reflexivity).
  assert ((bootstrap_samples (RS:=Examples.strict) 1%positive
             Examples.total_nonneg 2 (Examples.store 42 [])).1
          = inl ValueError) as Hlib by (vm_compute; reflexivity).
  split_and!; [by vm_compute|done|done|].
  intros (P & Hyes & Hno).
  exact (Hno ValueError Hlib (Hyes ValueError Hstat)).
Qed.

(** C5 on the sample [0; 1] with [1 / x.tolist().count(0)]: from seed 1 the
    resamples are [0; 0], [1; 1], [1; 1], [0; 1]. *)
Lemma bootstrap_samples_propagates_witness :
  ∃ k' ys' e',
    k' ≤ 2
    ∧ resample_at (RS:=Examples.strict) k' 1%N [0;1]%Z = inr ys'
    ∧ (Examples.inv_count_zero ys').2 = inl e'
    ∧ (∀ j, j < k' →
         ∃ zs t, resample_at (RS:=Examples.strict) j 1%N [0;1]%Z = inr zs
                 ∧ (Examples.inv_count_zero zs).2 = inr t)
    ∧ (bootstrap_samples (RS:=Examples.strict) 1%positive
         Examples.inv_count_zero 4 (Examples.store 1 [0;1]%Z)).1 = inl e'.
Proof.
  apply (bootstrap_samples_propagates (RS:=Examples.strict)
           1%positive [0;1]%Z Examples.inv_count_zero 4
           (Examples.store 1 [0;1]%Z) 2 [1;1]%Z ZeroDivisionError).
  - reflexivity.
  - simpl. lia.
  - vm_compute. reflexivity.
  - vm_compute. reflexivity.
Defined.

(** C6 on the sample 1..5, for the third of five trials. *)
Lemma bootstrap_samples_members_witness :
  ∃ ys, resample_at (RS:=Examples.strict) 2 42%N [1;2;3;4;5]%Z = inr ys
        ∧ Forall (λ y, y ∈ [1;2;3;4;5]%Z) ys.
Proof.
  refine (proj1 (bootstrap_samples_members (RS:=Examples.strict)
                   1%positive [1;2;3;4;5]%Z Examples.total 5
                   (Examples.store 42 [1;2;3;4;5]%Z) _ _ _) 2 _).
  - reflexivity.
  - discriminate.
  - lia.
  - simpl. lia.
Defined.

(** C7 on the spec's example: the mean of [5; 5; 5; 5]. *)
Lemma bootstrap_samples_constant_witness :
  (bootstrap_samples (RS:=Examples.strict) 1%positive Examples.mean 3
     (Examples.store 42 [5;5;5;5]%Z)).1
  = inr [5%Q; 5%Q; 5%Q].
Proof.
  refine (proj2 (bootstrap_samples_constant (RS:=Examples.strict)
                   1%positive [5;5;5;5]%Z 5%Z Examples.mean 3
                   (Examples.store 42 [5;5;5;5]%Z) _ _ _ _) 5%Q _).
  - reflexivity.
  - discriminate.
  - repeat constructor.
  - lia.
  - vm_compute. reflexivity.
Defined.

(** C8: the same sample stored at another place in a store that holds
    another array as well. *)
Lemma bootstrap_samples_deterministic_witness :
  (bootstrap_samples (RS:=Examples.strict) 1%positive Examples.total 4
     (Examples.store 42 [1;2;3]%Z)).1
  = (bootstrap_samples (RS:=Examples.strict) 7%positive Examples.total 4
       (State 42%N (<[7%positive := [1;2;3]%Z]> {[ 1%positive := [9;9]%Z ]}))).1
  ∧ rng (bootstrap_samples (RS:=Examples.strict) 1%positive Examples.total 4
           (Examples.store 42 [1;2;3]%Z)).2
    = rng (bootstrap_samples (RS:=Examples.strict) 7%positive Examples.total 4
             (State 42%N
                (<[7%positive := [1;2;3]%Z]> {[ 1%positive := [9;9]%Z ]}))).2
  ∧ (∀ l, l ∈ dom (heap (Examples.store 42 [1;2;3]%Z)) →
       heap (bootstrap_samples (RS:=Examples.strict) 1%positive
               Examples.total 4 (Examples.store 42 [1;2;3]%Z)).2 !! l
       = heap (Examples.store 42 [1;2;3]%Z) !! l).
Proof.
  apply (bootstrap_samples_deterministic (RS:=Examples.strict)
           1%positive 7%positive [1;2;3]%Z).
  - reflexivity.
  - reflexivity.
  - reflexivity.
Defined.

(** C9 with a statistic that clears the array it is given. *)
Lemma bootstrap_samples_sample_unchanged_witness :
  heap (bootstrap_samples (RS:=Examples.strict) 1%positive
          Examples.total_and_clear 3 (Examples.store 42 [1;2;3]%Z)).2
    !! 1%positive
  = Some [1;2;3]%Z.
Proof.
  apply (bootstrap_samples_sample_unchanged (RS:=Examples.strict)).
  reflexivity.
Defined.

(** C10 with the same statistic. *)
Lemma bootstrap_samples_fresh_resamples_witness :
  let r := bootstrap_samples (RS:=Examples.strict) 1%positive
             Examples.total_and_clear 3 (Examples.store 42 [1;2;3]%Z) in
  ∃ ls : list loc,
    length ls ≤ Z.to_nat 3
    ∧ (∀ ts, r.1 = inr ts → length ls = Z.to_nat 3)
    ∧ NoDup ls
    ∧ (∀ l, l ∈ ls →
         l ≠ 1%positive ∧ l ∉ dom (heap (Examples.store 42 [1;2;3]%Z)))
    ∧ dom (heap r.2)
      = dom (heap (Examples.store 42 [1;2;3]%Z)) ∪ list_to_set ls
    ∧ (∀ k l, ls !! k = Some l →
         ∃ ys, resample_at (RS:=Examples.strict) k 42%N [1;2;3]%Z = inr ys
               ∧ heap r.2 !! l = Some (Examples.total_and_clear ys).1)
    ∧ (∀ l, l ∈ dom (heap (Examples.store 42 [1;2;3]%Z)) →
         heap r.2 !! l = heap (Examples.store 42 [1;2;3]%Z) !! l).
Proof.
  apply (bootstrap_samples_fresh_resamples (RS:=Examples.strict)
           1%positive [1;2;3]%Z).
  reflexivity.
Defined.

(** ** Further properties of [bootstrap_samples] *)

Section Stream.
Context {G : Type} {RS : RandomState G}.
Context {A T : Type}.
Implicit Types (g : G) (xs ys : list A) (k m : nat).
Implicit Types (estimator : statistic A T).

(** Draws made one after the other are one longer run of draws. *)
Lemma randints_app g high a b :
  randints g high (a + b)
  = ((randints g high a).1 ++ (randints (randints g high a).2 high b).1,
     (randints (randints g high a).2 high b).2).
Proof.
  revert g. induction a as [|a IH]; intros g; simpl.
  { by destruct (randints g high b). }
  destruct (randint g high) as [i g1]. rewrite IH.
  destruct (randints g1 high a) as [idx g2]. simpl.
  by destruct (randints g2 high b).
Qed.

(** A draw that returns has made as many draws from the generator as the
    sample is long, and holds the sample's values at the indices drawn. *)
Lemma draw_inr g xs ys :
  (draw g xs).1 = inr ys →
  (draw g xs).2 = (randints g (length xs) (length xs)).2
  ∧ Forall2 (λ i y, xs !! i = Some y)
      (randints g (length xs) (length xs)).1 ys.
Proof.
  unfold draw, choice.
  destruct (bool_decide (length xs = 0) && _); [done|].
  destruct (randints g (length xs) (length xs)) as [idx g'].
  destruct (take xs idx) as [r|] eqn:Htake; [|done].
  simpl. intros [= ->]. split; [done|]. by apply mapM_Some_1.
Qed.

Lemma gen_at_stream k g xs :
  (∀ j, j < k → ∃ ys, resample_at j g xs = inr ys) →
  gen_at k g xs = (randints g (length xs) (k * length xs)).2.
Proof.
  revert g. induction k as [|k IH]; intros g Hok; [done|].
  simpl gen_at. destruct (Hok 0) as [ys Hys]; [lia|].
  change (resample_at 0 g xs) with (draw g xs).1 in Hys.
  apply draw_inr in Hys as [Hg _].
  rewrite IH.
  - rewrite Hg. simpl Nat.mul. by rewrite randints_app.
  - intros j Hj. destruct (Hok (S j)) as [zs Hzs]; [lia|]. eauto.
Qed.

(** The indices of trial [k] are the [k]-th block of the run of draws of
    the whole call. *)
Lemma indices_at_block k m g xs :
  (∀ j, j < k → ∃ ys, resample_at j g xs = inr ys) →
  k < m →
  indices_at k g xs
  = firstn (length xs)
      (skipn (k * length xs) (randints g (length xs) (m * length xs)).1).
Proof.
  intros Hok Hk. unfold indices_at. rewrite (gen_at_stream k g xs Hok).
  replace (m * length xs)
    with (k * length xs + (length xs + (m - S k) * length xs)) by nia.
  rewrite !randints_app. simpl.
  rewrite drop_app_length' by (by rewrite randints_length).
  by rewrite take_app_length' by (by rewrite randints_length).
Qed.

Lemma outcome_at_inr_resample estimator k g xs t :
  outcome_at estimator k g xs = inr t →
  ∃ ys, resample_at k g xs = inr ys ∧ (estimator ys).2 = inr t.
Proof.
  unfold outcome_at. destruct (resample_at k g xs) as [e|ys]; [done|eauto].
Qed.

(** The generator left by trials that all return. *)
Lemma replicates_gen_inr estimator xs m g ts :
  (replicates estimator xs m g).1 = inr ts →
  (replicates estimator xs m g).2 = gen_at m g xs.
Proof.
  revert g ts. induction m as [|m IH]; intros g ts; [done|].
  simpl. destruct (draw g xs) as [[e|ys] g'] eqn:Hd; [done|].
  destruct (estimator ys).2 as [e|t]; [done|].
  specialize (IH g').
  destruct (replicates estimator xs m g') as [[e|ts'] g'']; [done|].
  simpl in *. intros _. by eapply IH.
Qed.

(** The generator left when the statistic raises: the draws of the trial
    in which it raises are made, those of later trials are not. *)
Lemma replicates_gen_inl estimator xs m g k ys e :
  k < m →
  (∀ j, j < k → ∃ t, outcome_at estimator j g xs = inr t) →
  resample_at k g xs = inr ys →
  (estimator ys).2 = inl e →
  (replicates estimator xs m g).2 = gen_at (S k) g xs.
Proof.
  revert g k. induction m as [|m IH]; intros g k Hk Hbefore Hr He; [lia|].
  simpl replicates. destruct k as [|k].
  - unfold resample_at in Hr. simpl in Hr |- *.
    destruct (draw g xs) as [[e'|ys'] g']; simpl in *; [done|].
    injection Hr as ->. by rewrite He.
  - destruct (Hbefore 0) as (t & Ht); [lia|].
    unfold outcome_at, resample_at in Ht. simpl in Ht.
    rewrite resample_at_S in Hr. simpl gen_at.
    destruct (draw g xs) as [[e'|ys'] g'] eqn:Hd; simpl in *; [done|].
    rewrite Ht.
    assert ((replicates estimator xs m g').2 = gen_at (S k) g' xs) as Hg.
    { apply (IH g' k); [lia| |done|done].
      intros j Hj. destruct (Hbefore (S j)) as (t' & Ht'); [lia|].
      exists t'. by rewrite outcome_at_S, Hd in Ht'. }
    simpl in Hg.
    by destruct (replicates estimator xs m g') as [[e0|ts] g''].
Qed.

(** Trials run in two batches are the trials run in one. *)
Lemma replicates_app estimator xs m1 m2 g :
  replicates estimator xs (m1 + m2) g
  = match replicates estimator xs m1 g with
    | (inl e, g1) => (inl e, g1)
    | (inr ts1, g1) =>
        match replicates estimator xs m2 g1 with
        | (inl e, g2) => (inl e, g2)
        | (inr ts2, g2) => (inr (ts1 ++ ts2), g2)
        end
    end.
Proof.
  revert g. induction m1 as [|m1 IH]; intros g; simpl.
  { by destruct (replicates estimator xs m2 g) as [[e|ts2] g2]. }
  destruct (draw g xs) as [[e|ys] g']; [done|].
  destruct (estimator ys).2 as [e|t]; [done|].
  rewrite IH.
  destruct (replicates estimator xs m1 g') as [[e|ts1] g1]; [done|].
  by destruct (replicates estimator xs m2 g1) as [[e|ts2] g2].
Qed.

(** The trials see of the statistic only what it returns or raises. *)
Lemma replicates_ext estimator estimator' xs m g :
  (∀ x, (estimator' x).2 = (estimator x).2) →
  replicates estimator' xs m g = replicates estimator xs m g.
Proof.
  intros Hext. revert g. induction m as [|m IH]; intros g; [done|].
  simpl. destruct (draw g xs) as [[e|ys] g']; [done|].
  by rewrite Hext, IH.
Qed.

End Stream.

Section Further.
Context {G : Type} {RS : RandomState G}.
Context {A T : Type}.
Implicit Types (g : G) (xs ys : list A) (σ : state G A) (l rvs : loc).
Implicit Types (estimator : statistic A T) (B : Z).

Lemma bootstrap_samples_rng rvs xs estimator B σ :
  heap σ !! rvs = Some xs →
  rng (bootstrap_samples rvs estimator B σ).2
  = (replicates estimator xs (Z.to_nat B) (rng σ)).2.
Proof.
  intros Hrvs.
  pose proof (bootstrap_samples_replicates rvs xs estimator B σ Hrvs) as H.
  simpl in H. by rewrite <- H.
Qed.

(** X1. A call for [B1 + B2] replicates is a call for [B1] followed,
    from the state the first leaves, by a call for [B2]: it returns the
    replicates of the first followed by those of the second and leaves
    the generator where the second leaves it; if one of the two raises,
    it raises the same exception. *)
Theorem bootstrap_samples_batches rvs xs estimator B1 B2 σ :
  heap σ !! rvs = Some xs → (0 ≤ B1)%Z → (0 ≤ B2)%Z →
  let r1 := bootstrap_samples rvs estimator B1 σ in
  let r2 := bootstrap_samples rvs estimator B2 r1.2 in
  let r := bootstrap_samples rvs estimator (B1 + B2) σ in
  (r.1, rng r.2)
  = match r1.1 with
    | inl e => (inl e, rng r1.2)
    | inr ts1 =>
        (match r2.1 with
         | inl e => inl e
         | inr ts2 => inr (ts1 ++ ts2)
         end, rng r2.2)
    end.
Proof.
  intros Hrvs HB1 HB2 r1 r2 r.
  assert (heap r1.2 !! rvs = Some xs) as Hrvs1.
  { unfold r1. rewrite bootstrap_samples_frame; [done|].
    apply elem_of_dom. eauto. }
  pose proof (bootstrap_samples_replicates rvs xs estimator B1 σ Hrvs) as E1.
  pose proof (bootstrap_samples_replicates rvs xs estimator B2 r1.2 Hrvs1)
    as E2.
  pose proof (bootstrap_samples_replicates rvs xs estimator (B1 + B2) σ Hrvs)
    as E.
  cbn zeta in E1, E2, E. fold r1 in E1. fold r2 in E2. fold r in E.
  rewrite E, Z2Nat.inj_add, replicates_app by done.
  destruct (replicates estimator xs (Z.to_nat B1) (rng σ)) as [[e|ts1] g1];
    injection E1 as E1v E1g; rewrite E1v; simpl; [by rewrite E1g|].
  rewrite <- E1g.
  destruct (replicates estimator xs (Z.to_nat B2) (rng r1.2))
    as [[e|ts2] g2]; injection E2 as E2v E2g; by rewrite E2v, E2g.
Qed.

(** X2. From the same state of the generator, a call for fewer
    replicates returns the first ones of a call for more. *)
Theorem bootstrap_samples_prefix rvs xs estimator B1 B2 σ ts :
  heap σ !! rvs = Some xs → (0 ≤ B1 ≤ B2)%Z →
  (bootstrap_samples rvs estimator B2 σ).1 = inr ts →
  (bootstrap_samples rvs estimator B1 σ).1 = inr (firstn (Z.to_nat B1) ts).
Proof.
  intros Hrvs HB. rewrite !(bootstrap_samples_values rvs xs) by done.
  rewrite !replicates_lookup. intros [Hlen Hat]. split.
  - rewrite length_take. lia.
  - intros k Hk. destruct (Hat k) as (t & Ho & Ht); [lia|].
    exists t. split; [done|]. by rewrite lookup_take_lt.
Qed.

(** X3. A call that returns has made exactly [B * n] draws from the
    generator, [n] the length of the sample, all from the range
    [0, n): the generator is left after that many draws, and replicate
    [k] is the statistic on the sample indexed by draws [k * n] to
    [k * n + n - 1]. *)
Theorem bootstrap_samples_stream rvs xs estimator B σ ts :
  heap σ !! rvs = Some xs →
  (bootstrap_samples rvs estimator B σ).1 = inr ts →
  let n := length xs in
  let stream := randints (rng σ) n (Z.to_nat B * n) in
  rng (bootstrap_samples rvs estimator B σ).2 = stream.2
  ∧ ∀ k, k < Z.to_nat B →
      ∃ ys t, Forall2 (λ i y, xs !! i = Some y)
                (firstn n (skipn (k * n) stream.1)) ys
              ∧ (estimator ys).2 = inr t
              ∧ ts !! k = Some t.
Proof.
  intros Hrvs Hts n stream.
  pose proof (bootstrap_samples_replicates rvs xs estimator B σ Hrvs) as E.
  cbn zeta in E. rewrite Hts in E.
  assert ((replicates estimator xs (Z.to_nat B) (rng σ)).1 = inr ts) as Hrep
    by (by rewrite <- E).
  pose proof Hrep as Hgen. apply replicates_gen_inr in Hgen.
  apply replicates_lookup in Hrep as [Hlen Hat].
  assert (∀ j, j < Z.to_nat B → ∃ ys, resample_at j (rng σ) xs = inr ys)
    as Hok.
  { intros j Hj. destruct (Hat j Hj) as (t & Ho & _).
    apply outcome_at_inr_resample in Ho as (ys & Hr & _). eauto. }
  split.
  - rewrite <- E in Hgen. simpl in Hgen. rewrite Hgen.
    by apply gen_at_stream.
  - intros k Hk. destruct (Hat k Hk) as (t & Ho & Ht).
    apply outcome_at_inr_resample in Ho as (ys & Hr & He).
    exists ys, t. split_and!; [|done|done].
    unfold stream, n.
    rewrite <- (indices_at_block k (Z.to_nat B) (rng σ) xs);
      [|intros j Hj; apply Hok; lia|done].
    by apply draw_inr in Hr as [_ HF].
Qed.

(** X4. When the statistic raises, in trial [k] for the first time, the
    call raises its exception and leaves the generator after the draws
    of trials 0 to [k]: a later call does not draw these again. *)
Theorem bootstrap_samples_failure_generator rvs xs estimator B σ k ys e :
  heap σ !! rvs = Some xs →
  k < Z.to_nat B →
  (∀ j, j < k →
     ∃ zs t, resample_at j (rng σ) xs = inr zs ∧ (estimator zs).2 = inr t) →
  resample_at k (rng σ) xs = inr ys →
  (estimator ys).2 = inl e →
  (bootstrap_samples rvs estimator B σ).1 = inl e
  ∧ rng (bootstrap_samples rvs estimator B σ).2
    = (randints (rng σ) (length xs) (S k * length xs)).2.
Proof.
  intros Hrvs Hk Hbefore Hr He.
  rewrite (bootstrap_samples_values rvs xs), (bootstrap_samples_rng rvs xs)
    by done.
  assert (∀ j, j < k → ∃ t, outcome_at estimator j (rng σ) xs = inr t)
    as Hout.
  { intros j Hj. destruct (Hbefore j Hj) as (zs & t & Hz & Ht).
    exists t. by rewrite (outcome_at_resample _ _ _ _ _ Hz). }
  split.
  - apply (replicates_inl estimator xs _ _ k); [done|done|].
    by rewrite (outcome_at_resample _ _ _ _ _ Hr).
  - rewrite (replicates_gen_inl estimator xs _ _ k ys e) by done.
    apply gen_at_stream. intros j Hj.
    destruct (decide (j = k)) as [->|]; [eauto|].
    destruct (Hbefore j) as (zs & _ & Hz & _); [lia|eauto].
Qed.

(** X5. What a statistic leaves in the array it is given has no effect
    on the call: two statistics that return or raise the same on every
    array give the same outcome and leave the generator in the same
    state, whatever they write into their argument. *)
Theorem bootstrap_samples_writes_unseen rvs xs estimator estimator' B σ :
  heap σ !! rvs = Some xs →
  (∀ x, (estimator' x).2 = (estimator x).2) →
  (bootstrap_samples rvs estimator' B σ).1
  = (bootstrap_samples rvs estimator B σ).1
  ∧ rng (bootstrap_samples rvs estimator' B σ).2
    = rng (bootstrap_samples rvs estimator B σ).2.
Proof.
  intros Hrvs Hext.
  pose proof (bootstrap_samples_replicates rvs xs estimator B σ Hrvs) as E.
  pose proof (bootstrap_samples_replicates rvs xs estimator' B σ Hrvs) as E'.
  cbn zeta in E, E'.
  rewrite (replicates_ext estimator estimator') in E' by done.
  rewrite <- E in E'. by injection E' as -> ->.
Qed.

Lemma trial_post {T'} (f : T → T') rvs n estimator σ :
  trial rvs n (post f estimator) σ
  = (sum_map id f (trial rvs n estimator σ).1, (trial rvs n estimator σ).2).
Proof.
  unfold trial, bind, random_choice, call, post.
  destruct (heap σ !! rvs) as [xs|]; [|done].
  destruct (choice (rng σ) xs n) as [[e|ys] g']; [done|].
  simpl. rewrite lookup_insert_eq. by destruct (estimator ys) as [v' r].
Qed.

Lemma comprehension_post {I T'} (f : T → T') rvs n estimator (it : list I) σ :
  comprehension (λ _, trial rvs n (post f estimator)) it σ
  = (sum_map id (fmap f)
       (comprehension (λ _, trial rvs n estimator) it σ).1,
     (comprehension (λ _, trial rvs n estimator) it σ).2).
Proof.
  revert σ. induction it as [|i it IH]; intros σ; [done|].
  rewrite !comprehension_cons, trial_post.
  destruct (trial rvs n estimator σ) as [[e|t] σ1]; [done|].
  simpl. rewrite IH.
  by destruct (comprehension _ it σ1) as [[e|ts] σ2].
Qed.

(** X6. Bootstrapping a statistic followed by a function of its value
    is bootstrapping the statistic and applying the function to every
    replicate: the same exception or the mapped replicate set, and the
    same final state. *)
Theorem bootstrap_samples_post {T'} (f : T → T') rvs estimator B σ :
  bootstrap_samples rvs (post f estimator) B σ
  = (sum_map id (fmap f) (bootstrap_samples rvs estimator B σ).1,
     (bootstrap_samples rvs estimator B σ).2).
Proof.
  unfold bootstrap_samples, bind, len.
  destruct (heap σ !! rvs) as [xs|]; [|done].
  apply comprehension_post.
Qed.

End Further.

Section CallerProperties.
Context {G : Type} {RS : RandomState G}.
Context {A T : Type}.
Variable np_mean : list A → T.
Variable subtract : T → T → T.
Implicit Types (xs ys : list A) (σ : state G A) (rvs : loc) (B : Z).

(** X7. The notebook's call on a sample that is not empty never raises:
    for every number [B] it returns [max B 0] values, the [k]-th of them
    the mean of the [k]-th resample minus the mean of the sample, and the
    sample is left as it was. *)
Theorem bootstrap_centred_returns rvs xs B σ :
  heap σ !! rvs = Some xs → xs ≠ [] →
  ∃ ts, (bootstrap_centred np_mean subtract rvs B σ).1 = inr ts
        ∧ length ts = Z.to_nat B
        ∧ (∀ k, k < Z.to_nat B →
             ∃ ys, resample_at k (rng σ) xs = inr ys
                   ∧ ts !! k = Some (subtract (np_mean ys) (np_mean xs)))
        ∧ heap (bootstrap_centred np_mean subtract rvs B σ).2 !! rvs
          = Some xs.
Proof.
  intros Hrvs Hne. unfold bootstrap_centred. rewrite Hrvs.
  destruct (replicates_total (centred_mean np_mean subtract xs) xs
              (Z.to_nat B) (rng σ)) as [ts Hts].
  { intros k _.
    destruct (resample_at_nonempty k (rng σ) xs Hne) as (ys & Hr & _).
    rewrite (outcome_at_resample _ _ _ _ _ Hr). eauto. }
  exists ts. rewrite (bootstrap_samples_values rvs xs) by done.
  split; [done|].
  apply replicates_lookup in Hts as [Hlen Hat]. split_and!; [done| |].
  - intros k Hk. destruct (Hat k Hk) as (t & Ho & Ht).
    destruct (resample_at_nonempty k (rng σ) xs Hne) as (ys & Hr & _).
    exists ys. split; [done|].
    rewrite (outcome_at_resample _ _ _ _ _ Hr) in Ho. simpl in Ho.
    congruence.
  - rewrite bootstrap_samples_frame; [done|]. apply elem_of_dom. eauto.
Qed.

End CallerProperties.

(** ** The bin edges of [plot_hist_dist_discrete] *)

Section Unique.
Implicit Types (a b v : Z) (l rvs : list Z).

Lemma keep_changes_spec a l :
  StronglySorted Z.le (a :: l) →
  StronglySorted Z.lt (a :: keep_changes a l)
  ∧ ∀ x, x ∈ a :: keep_changes a l ↔ x ∈ a :: l.
Proof.
  revert a. induction l as [|b l IH]; intros a Hs; simpl.
  { split; [|done]. repeat constructor. }
  apply StronglySorted_inv in Hs as [Hs Hall].
  inversion Hall as [|? ? Hab Hal]; subst.
  destruct (decide (b = a)) as [->|Hne].
  - destruct (IH a Hs) as [Hs' Hel]. split; [done|].
    intros x. rewrite Hel. set_solver.
  - destruct (IH b Hs) as [Hs' Hel]. split.
    + constructor; [done|]. apply Forall_forall. intros x Hx.
      apply Hel in Hx. apply elem_of_cons in Hx as [->|Hx]; [lia|].
      apply StronglySorted_inv in Hs as [_ Hbl].
      rewrite Forall_forall in Hbl. specialize (Hbl x Hx). lia.
    + intros x. rewrite !elem_of_cons. rewrite <- elem_of_cons, Hel.
      rewrite elem_of_cons. tauto.
Qed.

(** [np.unique] returns the values of the array, each once, in
    increasing order. *)
Lemma np_unique_sorted rvs : StronglySorted Z.lt (np_unique rvs).
Proof.
  unfold np_unique.
  pose proof (StronglySorted_merge_sort Z.le rvs) as Hs.
  destruct (merge_sort Z.le rvs) as [|a l]; [constructor|].
  by apply keep_changes_spec.
Qed.

Lemma np_unique_elem rvs x : x ∈ np_unique rvs ↔ x ∈ rvs.
Proof.
  unfold np_unique.
  pose proof (StronglySorted_merge_sort Z.le rvs) as Hs.
  assert (x ∈ rvs ↔ x ∈ merge_sort Z.le rvs) as ->
    by (by rewrite (merge_sort_Permutation Z.le rvs)).
  destruct (merge_sort Z.le rvs) as [|a l]; [done|].
  by apply keep_changes_spec.
Qed.

Lemma np_unique_nil rvs : np_unique rvs = [] ↔ rvs = [].
Proof.
  split.
  - intros Hu. destruct rvs as [|v rvs]; [done|].
    assert (v ∈ np_unique (v :: rvs)) as Hv
      by (apply np_unique_elem; left).
    rewrite Hu in Hv. by apply elem_of_nil in Hv.
  - by intros ->.
Qed.

Lemma sorted_lt_lookup l i j a b :
  StronglySorted Z.lt l → l !! i = Some a → l !! j = Some b → i < j →
  (a < b)%Z.
Proof.
  intros Hs. revert i j. induction Hs as [|x l Hs IH Hall]; intros i j.
  { by rewrite lookup_nil. }
  destruct i as [|i], j as [|j]; simpl; try lia.
  - intros [= ->] Hb _. rewrite Forall_forall in Hall.
    apply Hall. by eapply list_elem_of_lookup_2.
  - intros Ha Hb Hij. apply (IH i j); [done|done|lia].
Qed.

Lemma np_unique_NoDup rvs : NoDup (np_unique rvs).
Proof.
  apply NoDup_alt. intros i j x Hi Hj.
  pose proof (np_unique_sorted rvs) as Hs.
  destruct (Nat.lt_total i j) as [Hlt|[->|Hlt]]; [|done|].
  - pose proof (sorted_lt_lookup _ _ _ _ _ Hs Hi Hj Hlt). lia.
  - pose proof (sorted_lt_lookup _ _ _ _ _ Hs Hj Hi Hlt). lia.
Qed.

(** There are as many of them as the array has distinct values. *)
Lemma np_unique_length rvs :
  length (np_unique rvs) = length (remove_dups rvs).
Proof.
  apply Permutation_length, NoDup_Permutation.
  - apply np_unique_NoDup.
  - apply NoDup_remove_dups.
  - intros x. by rewrite np_unique_elem, elem_of_remove_dups.
Qed.

End Unique.

Section Bins.
Implicit Types (a b u v s : Z) (rvs : list Z) (bins : list Q).

Lemma wrap64_small z :
  (- 2 ^ 63 ≤ z < 2 ^ 63)%Z → wrap64 z = z.
Proof.
  intros Hz. unfold wrap64. rewrite Z.mod_small; lia.
Qed.

Lemma Qlt_half_l s v : (inject_Z s / 2 < inject_Z v)%Q ↔ (s < 2 * v)%Z.
Proof. unfold Qlt, Qdiv, Qmult, Qinv, inject_Z. simpl. lia. Qed.

Lemma Qlt_half_r s v : (inject_Z v < inject_Z s / 2)%Q ↔ (2 * v < s)%Z.
Proof. unfold Qlt, Qdiv, Qmult, Qinv, inject_Z. simpl. lia. Qed.

Lemma Qlt_minus_half u v : (inject_Z u - (1 # 2) < inject_Z v)%Q ↔ (u ≤ v)%Z.
Proof. unfold Qlt, Qminus, Qplus, Qopp, inject_Z. simpl. lia. Qed.

Lemma Qlt_plus_half u v : (inject_Z v < inject_Z u + (1 # 2))%Q ↔ (v ≤ u)%Z.
Proof. unfold Qlt, Qplus, inject_Z. simpl. lia. Qed.

Lemma Qeq_half_minus s u :
  s = (2 * u - 1)%Z → (inject_Z s / 2 == inject_Z u - (1 # 2))%Q.
Proof.
  intros ->. unfold Qeq, Qdiv, Qmult, Qinv, Qminus, Qplus, Qopp, inject_Z.
  simpl. lia.
Qed.

Lemma Qeq_half_plus s u :
  s = (2 * u + 1)%Z → (inject_Z s / 2 == inject_Z u + (1 # 2))%Q.
Proof.
  intros ->. unfold Qeq, Qdiv, Qmult, Qinv, Qplus, inject_Z.
  simpl. lia.
Qed.

(** The edges below and above the [i]-th distinct value. *)
Lemma discrete_bins_lookup rvs bins i u :
  discrete_bins rvs = inr bins →
  np_unique rvs !! i = Some u →
  bins !! i
  = Some (match i with
          | 0 => (inject_Z u - (1 # 2))%Q
          | S i' =>
              match np_unique rvs !! i' with
              | Some p => (inject_Z (wrap64 (u + p)) / 2)%Q
              | None => 0%Q
              end
          end)
  ∧ bins !! S i
    = Some (match np_unique rvs !! S i with
            | Some nx => (inject_Z (wrap64 (nx + u)) / 2)%Q
            | None => (inject_Z u + (1 # 2))%Q
            end).
Proof.
  unfold discrete_bins. set (us := np_unique rvs).
  set (mids := zip_with _ _ _).
  intros Hbins Hu.
  assert (length mids = length us - 1) as Hmids.
  { unfold mids. rewrite length_zip_with, length_drop, length_take. lia. }
  assert (∀ k x y, us !! S k = Some x → us !! k = Some y →
            mids !! k = Some (inject_Z (wrap64 (x + y)) / 2)%Q) as Hmid.
  { intros k x y Hx Hy. unfold mids. rewrite lookup_zip_with.
    rewrite lookup_drop. simpl. rewrite Hx. simpl.
    rewrite lookup_take_lt.
    - by rewrite Hy.
    - apply lookup_lt_Some in Hx. lia. }
  destruct (us !! 0) as [first|] eqn:Hfirst; [|done].
  destruct (last us) as [final|] eqn:Hfinal; [|done].
  injection Hbins as <-.
  rewrite last_lookup in Hfinal.
  pose proof (lookup_lt_Some _ _ _ Hu) as Hi.
  split.
  - destruct i as [|i'].
    + simpl. congruence.
    + simpl. destruct (lookup_lt_is_Some_2 us i') as [p Hp]; [lia|].
      rewrite Hp. rewrite lookup_app_l by lia. by apply Hmid.
  - simpl. destruct (us !! S i) as [nx|] eqn:Hnx.
    + rewrite lookup_app_l.
      * by apply Hmid.
      * apply lookup_lt_Some in Hnx. lia.
    + apply lookup_ge_None in Hnx.
      rewrite lookup_app_r by lia.
      replace (i - length mids) with 0 by lia. simpl.
      replace (pred (length us)) with i in Hfinal by lia.
      congruence.
Qed.

Lemma discrete_bins_inr_length rvs bins :
  discrete_bins rvs = inr bins → length bins = S (length (np_unique rvs)).
Proof.
  unfold discrete_bins.
  destruct (np_unique rvs !! 0) as [first|] eqn:Hfirst; [|done].
  destruct (last (np_unique rvs)) as [final|]; [|done].
  intros [= <-]. apply lookup_lt_Some in Hfirst.
  simpl. rewrite length_app, length_zip_with, length_drop, length_take.
  simpl. lia.
Qed.

(** X8. On the empty sample the computation of the edges raises
    [IndexError], and on no other; in every other case there is one edge
    more than the sample has distinct values. *)
Theorem discrete_bins_length rvs :
  match discrete_bins rvs with
  | inl e => e = IndexError ∧ rvs = []
  | inr bins => rvs ≠ [] ∧ length bins = S (length (remove_dups rvs))
  end.
Proof.
  destruct (discrete_bins rvs) as [e|bins] eqn:Hb.
  - unfold discrete_bins in Hb.
    destruct (np_unique rvs !! 0) as [first|] eqn:Hfirst.
    + destruct (last (np_unique rvs)) as [final|] eqn:Hfinal; [done|].
      apply last_None in Hfinal. by rewrite Hfinal in Hfirst.
    + injection Hb as <-. split; [done|].
      apply np_unique_nil. by destruct (np_unique rvs).
  - split.
    + intros ->. by vm_compute in Hb.
    + rewrite <- np_unique_length. by apply discrete_bins_inr_length.
Qed.

(** X9. For a sample of integers of size at most 2^51, the values of the
    sample that lie strictly between edge [i] and edge [i + 1] are the
    occurrences of the [i]-th distinct value, and no others: every bin
    of the histogram counts one value, and no value lies on an edge. *)
Theorem discrete_bins_separate rvs bins i lo hi v :
  Forall (λ x, (Z.abs x ≤ 2 ^ 51)%Z) rvs →
  discrete_bins rvs = inr bins →
  bins !! i = Some lo → bins !! S i = Some hi →
  v ∈ rvs →
  (lo < inject_Z v ∧ inject_Z v < hi)%Q ↔ np_unique rvs !! i = Some v.
Proof.
  intros Hbound Hbins Hlo Hhi Hv.
  assert (∀ j x, np_unique rvs !! j = Some x → (Z.abs x ≤ 2 ^ 51)%Z)
    as Hub.
  { intros j x Hx. rewrite Forall_forall in Hbound. apply Hbound.
    apply np_unique_elem. by eapply list_elem_of_lookup_2. }
  pose proof (np_unique_sorted rvs) as Hs.
  assert (i < length (np_unique rvs)) as Hi.
  { apply lookup_lt_Some in Hhi.
    rewrite (discrete_bins_inr_length rvs bins Hbins) in Hhi. lia. }
  destruct (lookup_lt_is_Some_2 _ _ Hi) as [u Hu].
  destruct (discrete_bins_lookup rvs bins i u Hbins Hu) as [Hlo' Hhi'].
  rewrite Hlo in Hlo'. rewrite Hhi in Hhi'.
  injection Hlo' as ->. injection Hhi' as ->.
  pose proof (Hub _ _ Hu) as Hbu.
  assert (2 ^ 51 < 2 ^ 62)%Z as Hpow by (by vm_compute).
  assert (2 ^ 63 = 2 * 2 ^ 62)%Z as Hpow' by (by vm_compute).
  split.
  - intros [Hlt1 Hlt2].
    apply np_unique_elem, list_elem_of_lookup in Hv as [j Hj].
    pose proof (Hub _ _ Hj) as Hbv.
    destruct (Nat.lt_total j i) as [Hji|[->|Hij]]; [exfalso| done |exfalso].
    + destruct i as [|i']; [lia|].
      destruct (lookup_lt_is_Some_2 (np_unique rvs) i') as [p Hp]; [lia|].
      rewrite Hp in Hlt1. pose proof (Hub _ _ Hp) as Hbp.
      rewrite wrap64_small in Hlt1 by lia. apply Qlt_half_l in Hlt1.
      pose proof (sorted_lt_lookup _ _ _ _ _ Hs Hp Hu ltac:(lia)) as Hpu.
      destruct (decide (j = i')) as [->|Hne].
      * assert (v = p) by congruence. lia.
      * pose proof (sorted_lt_lookup _ _ _ _ _ Hs Hj Hp ltac:(lia)). lia.
    + destruct (lookup_lt_is_Some_2 (np_unique rvs) (S i)) as [nx Hnx].
      { apply lookup_lt_Some in Hj. lia. }
      rewrite Hnx in Hlt2. pose proof (Hub _ _ Hnx) as Hbn.
      rewrite wrap64_small in Hlt2 by lia. apply Qlt_half_r in Hlt2.
      pose proof (sorted_lt_lookup _ _ _ _ _ Hs Hu Hnx ltac:(lia)) as Hun.
      destruct (decide (j = S i)) as [->|Hne].
      * assert (v = nx) by congruence. lia.
      * pose proof (sorted_lt_lookup _ _ _ _ _ Hs Hnx Hj ltac:(lia)). lia.
  - intros Hvi. assert (v = u) as -> by congruence. split.
    + destruct i as [|i']; [by apply Qlt_minus_half|].
      destruct (lookup_lt_is_Some_2 (np_unique rvs) i') as [p Hp]; [lia|].
      rewrite Hp. pose proof (Hub _ _ Hp) as Hbp.
      rewrite wrap64_small by lia. apply Qlt_half_l.
      pose proof (sorted_lt_lookup _ _ _ _ _ Hs Hp Hu ltac:(lia)). lia.
    + destruct (np_unique rvs !! S i) as [nx|] eqn:Hnx;
        [|by apply Qlt_plus_half].
      pose proof (Hub _ _ Hnx) as Hbn.
      rewrite wrap64_small by lia. apply Qlt_half_r.
      pose proof (sorted_lt_lookup _ _ _ _ _ Hs Hu Hnx ltac:(lia)). lia.
Qed.

(** X10. For such a sample whose distinct values are consecutive
    integers, every bin is one unit wide and centred on its value: the
    edges around the value [u] are [u - 1/2] and [u + 1/2]. *)
Theorem discrete_bins_unit_width rvs bins i u :
  Forall (λ x, (Z.abs x ≤ 2 ^ 51)%Z) rvs →
  discrete_bins rvs = inr bins →
  (∀ j a b, np_unique rvs !! j = Some a → np_unique rvs !! S j = Some b →
            b = (a + 1)%Z) →
  np_unique rvs !! i = Some u →
  ∃ lo hi, bins !! i = Some lo ∧ bins !! S i = Some hi
           ∧ (lo == inject_Z u - (1 # 2))%Q
           ∧ (hi == inject_Z u + (1 # 2))%Q.
Proof.
  intros Hbound Hbins Hstep Hu.
  assert (∀ j x, np_unique rvs !! j = Some x → (Z.abs x ≤ 2 ^ 51)%Z)
    as Hub.
  { intros j x Hx. rewrite Forall_forall in Hbound. apply Hbound.
    apply np_unique_elem. by eapply list_elem_of_lookup_2. }
  destruct (discrete_bins_lookup rvs bins i u Hbins Hu) as [Hlo Hhi].
  pose proof (Hub _ _ Hu) as Hbu.
  assert (2 ^ 51 < 2 ^ 62)%Z as Hpow by (by vm_compute).
  assert (2 ^ 63 = 2 * 2 ^ 62)%Z as Hpow' by (by vm_compute).
  eexists _, _. split_and!; [exact Hlo|exact Hhi| |].
  - destruct i as [|i']; [reflexivity|].
    pose proof (lookup_lt_Some _ _ _ Hu) as Hi.
    destruct (lookup_lt_is_Some_2 (np_unique rvs) i') as [p Hp]; [lia|].
    rewrite Hp. pose proof (Hub _ _ Hp) as Hbp.
    rewrite wrap64_small by lia. apply Qeq_half_minus.
    rewrite (Hstep i' p u Hp Hu). lia.
  - destruct (np_unique rvs !! S i) as [nx|] eqn:Hnx; [|reflexivity].
    pose proof (Hub _ _ Hnx) as Hbn.
    rewrite wrap64_small by lia. apply Qeq_half_plus.
    rewrite (Hstep i u nx Hu Hnx). lia.
Qed.

End Bins.

(** ** The grid of the probability plots *)

Lemma bind_singleton_fmap {X Y} (g : X → Y) (l : list X) :
  (x ← l; [g x]) = g <$> l.
Proof.
  induction l as [|x l IH]; [done|].
  rewrite bind_cons, fmap_cons, IH. done.
Qed.

Lemma rows_of_seq n m :
  (k ← seq 0 m; seq (1 + n * k) n) = seq 1 (m * n).
Proof.
  induction m as [|m IH]; [done|].
  rewrite seq_S, bind_app, IH, bind_cons, app_nil_r.
  replace (S m * n) with (m * n + n) by lia.
  replace (1 + n * (0 + m)) with (1 + m * n) by lia.
  by rewrite seq_app.
Qed.

(** X11. For [n] distributions the nested loops ask for the positions
    1, 2, ..., [n * n] of an [n] by [n] grid, each once and in this
    order: every position is one the grid has, and none is used twice. *)
Theorem subplot_calls_cover n :
  subplot_calls n = (λ i, (n, n, i)) <$> seq 1 (n * n).
Proof.
  unfold subplot_calls. rewrite <- (rows_of_seq n n).
  assert (∀ ks : list nat,
            (k ← ks; j ← seq 0 n; [(n, n, 1 + n * k + j)])
            = (λ i, (n, n, i)) <$> (k ← ks; seq (1 + n * k) n)) as Hrows;
    [|apply Hrows].
  intros ks. induction ks as [|k ks IH]; [done|].
  rewrite !bind_cons, fmap_app, <- IH. f_equal.
  rewrite (bind_singleton_fmap (λ j, (n, n, 1 + n * k + j))).
  assert (seq (1 + n * k) n = Nat.add (1 + n * k) <$> seq 0 n) as ->.
  { rewrite fmap_add_seq. f_equal. lia. }
  by rewrite <- list_fmap_compose.
Qed.

(** ** The further properties on concrete inputs *)

(** X1: two replicates, then three. *)
Lemma bootstrap_samples_batches_witness :
  let r1 := bootstrap_samples (RS:=Examples.strict) 1%positive Examples.total 2
              (Examples.store 42 [1;2;3;4;5]%Z) in
  let r2 := bootstrap_samples (RS:=Examples.strict) 1%positive Examples.total 3
              r1.2 in
  let r := bootstrap_samples (RS:=Examples.strict) 1%positive Examples.total
             (2 + 3) (Examples.store 42 [1;2;3;4;5]%Z) in
  (r.1, rng r.2)
  = match r1.1 with
    | inl e => (inl e, rng r1.2)
    | inr ts1 =>
        (match r2.1 with
         | inl e => inl e
         | inr ts2 => inr (ts1 ++ ts2)
         end, rng r2.2)
    end.
Proof.
  apply (bootstrap_samples_batches (RS:=Examples.strict)
           1%positive [1;2;3;4;5]%Z).
  - reflexivity.
  - lia.
  - lia.
Defined.

(** X2: the first two of five replicates. *)
Lemma bootstrap_samples_prefix_witness :
  (bootstrap_samples (RS:=Examples.strict) 1%positive Examples.total 2
     (Examples.store 42 [1;2;3;4;5]%Z)).1
  = inr (firstn (Z.to_nat 2) [15; 10; 21; 16; 18]%Z).
Proof.
  apply (bootstrap_samples_prefix (RS:=Examples.strict)
           1%positive [1;2;3;4;5]%Z Examples.total 2 5).
  - reflexivity.
  - lia.
  - vm_compute. reflexivity.
Defined.

(** X3: five replicates of a sample of five values are 25 draws. *)
Lemma bootstrap_samples_stream_witness :
  let n := length [1;2;3;4;5]%Z in
  let stream := randints (RS:=Examples.strict) 42%N n (Z.to_nat 5 * n) in
  rng (bootstrap_samples (RS:=Examples.strict) 1%positive Examples.total 5
         (Examples.store 42 [1;2;3;4;5]%Z)).2 = stream.2
  ∧ ∀ k, k < Z.to_nat 5 →
      ∃ ys t, Forall2 (λ i y, [1;2;3;4;5]%Z !! i = Some y)
                (firstn n (skipn (k * n) stream.1)) ys
              ∧ (Examples.total ys).2 = inr t
              ∧ [15; 10; 21; 16; 18]%Z !! k = Some t.
Proof.
  apply (bootstrap_samples_stream (RS:=Examples.strict)
           1%positive [1;2;3;4;5]%Z Examples.total 5
           (Examples.store 42 [1;2;3;4;5]%Z)).
  - reflexivity.
  - vm_compute. reflexivity.
Defined.

(** X4: [1 / x.tolist().count(0)] on [0; 1] from seed 1 raises in the second
    trial, after four draws. *)
Lemma bootstrap_samples_failure_generator_witness :
  (bootstrap_samples (RS:=Examples.strict) 1%positive
     Examples.inv_count_zero 4 (Examples.store 1 [0;1]%Z)).1
  = inl ZeroDivisionError
  ∧ rng (bootstrap_samples (RS:=Examples.strict) 1%positive
           Examples.inv_count_zero 4 (Examples.store 1 [0;1]%Z)).2
    = (randints (RS:=Examples.strict) 1%N (length [0;1]%Z)
         (2 * length [0;1]%Z)).2.
Proof.
  apply (bootstrap_samples_failure_generator (RS:=Examples.strict)
           1%positive [0;1]%Z Examples.inv_count_zero 4
           (Examples.store 1 [0;1]%Z) 1 [1;1]%Z ZeroDivisionError).
  - reflexivity.
  - simpl. lia.
  - intros j Hj. assert (j = 0) as -> by lia.
    exists [0;0]%Z, (1 # 2)%Q. split; vm_compute; reflexivity.
  - vm_compute. reflexivity.
  - vm_compute. reflexivity.
Defined.

(** X5: the sum, and the sum that clears its argument. *)
Lemma bootstrap_samples_writes_unseen_witness :
  (bootstrap_samples (RS:=Examples.strict) 1%positive
     Examples.total_and_clear 3 (Examples.store 42 [1;2;3]%Z)).1
  = (bootstrap_samples (RS:=Examples.strict) 1%positive
       Examples.total 3 (Examples.store 42 [1;2;3]%Z)).1
  ∧ rng (bootstrap_samples (RS:=Examples.strict) 1%positive
           Examples.total_and_clear 3 (Examples.store 42 [1;2;3]%Z)).2
    = rng (bootstrap_samples (RS:=Examples.strict) 1%positive
             Examples.total 3 (Examples.store 42 [1;2;3]%Z)).2.
Proof.
  apply (bootstrap_samples_writes_unseen (RS:=Examples.strict)
           1%positive [1;2;3]%Z).
  - reflexivity.
  - intros x. reflexivity.
Defined.

(** X7: the notebook's call with the mean as a fraction. *)
Lemma bootstrap_centred_returns_witness :
  ∃ ts, (bootstrap_centred (RS:=Examples.strict)
           (λ x : list Z, Qred (foldr Z.add 0%Z x # Pos.of_nat (length x)))
           Qminus 1%positive 3 (Examples.store 42 [1;2;3]%Z)).1 = inr ts
        ∧ length ts = Z.to_nat 3
        ∧ (∀ k, k < Z.to_nat 3 →
             ∃ ys, resample_at (RS:=Examples.strict) k 42%N [1;2;3]%Z = inr ys
                   ∧ ts !! k
                     = Some (Qred (foldr Z.add 0%Z ys # Pos.of_nat (length ys))
                             - Qred (foldr Z.add 0%Z [1;2;3]%Z
                                     # Pos.of_nat (length [1;2;3]%Z)))%Q)
        ∧ heap (bootstrap_centred (RS:=Examples.strict)
                  (λ x : list Z,
                     Qred (foldr Z.add 0%Z x # Pos.of_nat (length x)))
                  Qminus 1%positive 3 (Examples.store 42 [1;2;3]%Z)).2
            !! 1%positive
          = Some [1;2;3]%Z.
Proof.
  apply (bootstrap_centred_returns (RS:=Examples.strict)
           (λ x : list Z, Qred (foldr Z.add 0%Z x # Pos.of_nat (length x)))
           Qminus 1%positive [1;2;3]%Z).
  - reflexivity.
  - discriminate.
Defined.

(** X9: the sample 3, 1, 2, 3, 1, 7 has the edges 1/2, 3/2, 5/2, 5 and
    15/2; the last bin holds the value 7. *)
Lemma discrete_bins_separate_witness :
  ((10 # 2) < inject_Z 7 ∧ inject_Z 7 < (15 # 2))%Q
  ↔ np_unique [3;1;2;3;1;7]%Z !! 3 = Some 7%Z.
Proof.
  apply (discrete_bins_separate [3;1;2;3;1;7]%Z
           [1 # 2; 3 # 2; 5 # 2; 10 # 2; 15 # 2]%Q 3).
  - repeat constructor; by vm_compute.
  - vm_compute. reflexivity.
  - reflexivity.
  - reflexivity.
  - repeat constructor.
Defined.

(** X10: the sample 3, 1, 2, 3, 1 has no gap; the edges around 2 are 3/2
    and 5/2. *)
Lemma discrete_bins_unit_width_witness :
  ∃ lo hi, [1 # 2; 3 # 2; 5 # 2; 7 # 2]%Q !! 1 = Some lo
           ∧ [1 # 2; 3 # 2; 5 # 2; 7 # 2]%Q !! 2 = Some hi
           ∧ (lo == inject_Z 2 - (1 # 2))%Q
           ∧ (hi == inject_Z 2 + (1 # 2))%Q.
Proof.
  apply (discrete_bins_unit_width [3;1;2;3;1]%Z).
  - repeat constructor; by vm_compute.
  - vm_compute. reflexivity.
  - intros j a b Ha Hb.
    destruct j as [|[|[|j]]]; vm_compute in Ha, Hb; simplify_eq;
      reflexivity.
  - vm_compute. reflexivity.
Defined.
